(** * ReifyDtypeCalculations: the dtype-function argument builder and the pass

    A shallow embedding of
    [lib/Dialect/Torch/Transforms/ReifyDtypeCalculations.cpp].

    Conventions of the embedding:
    - [assert] is embedded as in a build with assertions enabled: a failed
      assertion ends the computation with [AssertionFailure], carrying the
      message of the source;
    - [FailureOr<T>] is the two-constructor type [FailureOr];
    - the [OpBuilder] is threaded explicitly: it records the operations that
      were created at the insertion point, in creation order;
    - [Location] and [MLIRContext] carry no behaviour and are left out. *)

From Stdlib Require Import String List Bool Arith Lia.
Import ListNotations.
Open Scope string_scope.
Open Scope list_scope.

#[local] Set Warnings "-register-all".

(** ** Results of computations *)

(** A computation either returns, or trips an [assert]. *)
Inductive Outcome (A : Type) : Type :=
| Returned (a : A)
| AssertionFailure (message : string).
Arguments Returned {A} a.
Arguments AssertionFailure {A} message.

(** [FailureOr<T>]: a value, or the recoverable [failure()]. *)
Inductive FailureOr (A : Type) : Type :=
| Success (a : A)
| Failure.
Arguments Success {A} a.
Arguments Failure {A}.

(** ** Torch types *)

(** Modelled from the spec: the closed type hierarchy of section 3 (the type
    declarations of the Torch dialect are not part of the source file).
    [NonValueTensorType] and [ValueTensorType] are the two classes below
    [BaseTensorType]; sizes and element types of tensors are left out. *)
Inductive TorchType : Type :=
| NonValueTensorType
| ValueTensorType
| OptionalType (containedType : TorchType)
| ListType (containedType : TorchType)
| TupleType (containedTypes : list TorchType)
| IntType
| FloatType
| BoolType
| NumberType
| NoneType
| StringType
| AnyType.

(** [type.isa<Torch::BaseTensorType>()] *)
Definition isaBaseTensorType (type : TorchType) : bool :=
  match type with
  | NonValueTensorType | ValueTensorType => true
  | _ => false
  end.

(** [type.isa<Torch::TupleType>()] *)
Definition isaTupleType (type : TorchType) : bool :=
  match type with
  | TupleType _ => true
  | _ => false
  end.

(** [type.isa<Torch::IntType>()] *)
Definition isaIntType (type : TorchType) : bool :=
  match type with
  | IntType => true
  | _ => false
  end.

(** [type.isa<Torch::AnyType>()] *)
Definition isaAnyType (type : TorchType) : bool :=
  match type with
  | AnyType => true
  | _ => false
  end.

(** Equality of types, [operandType == desiredType]. *)
Fixpoint TorchType_eqb (s t : TorchType) {struct s} : bool :=
  match s, t with
  | NonValueTensorType, NonValueTensorType => true
  | ValueTensorType, ValueTensorType => true
  | OptionalType s', OptionalType t' => TorchType_eqb s' t'
  | ListType s', ListType t' => TorchType_eqb s' t'
  | TupleType ss, TupleType ts =>
      (fix all2 (ss ts : list TorchType) {struct ss} : bool :=
         match ss, ts with
         | [], [] => true
         | s' :: ss', t' :: ts' => TorchType_eqb s' t' && all2 ss' ts'
         | _, _ => false
         end) ss ts
  | IntType, IntType => true
  | FloatType, FloatType => true
  | BoolType, BoolType => true
  | NumberType, NumberType => true
  | NoneType, NoneType => true
  | StringType, StringType => true
  | AnyType, AnyType => true
  | _, _ => false
  end.

(** ** The tensor-type classifier *)

Definition tupleAssertion : string :=
  "dtype calculation functions are expected to not have tuples of tensors as arguments".

(** [isTensorTypeOrWrappedTensorType], lines 22-43. The assertion comes
    first, at every level of the recursion. *)
Fixpoint isTensorTypeOrWrappedTensorType (type : TorchType) : Outcome bool :=
  if isaTupleType type then AssertionFailure tupleAssertion
  else if isaBaseTensorType type then Returned true
  else
    match type with
    | OptionalType containedType =>
        isTensorTypeOrWrappedTensorType containedType
    | ListType containedType =>
        isTensorTypeOrWrappedTensorType containedType
    | _ => Returned false
    end.

(** The type that is left once the [Optional] and [List] wrappers are
    peeled off: the type at which the recursion of the classifier stops. *)
Fixpoint unwrappedType (type : TorchType) : TorchType :=
  match type with
  | OptionalType containedType => unwrappedType containedType
  | ListType containedType => unwrappedType containedType
  | _ => type
  end.

(** ** Values, operations and the builder *)

(** An SSA value: an argument of a block, or the result of the operation
    that defines it. *)
Inductive Value : Type :=
| BlockArgument (argNumber : nat) (type : TorchType)
| OpResult (name : string) (resultType : TorchType) (operands : list Value).

(** [operand.getType()] *)
Definition getType (v : Value) : TorchType :=
  match v with
  | BlockArgument _ type => type
  | OpResult _ resultType _ => resultType
  end.

(** An operation: its name, operands, result types and the operations
    nested in its region. *)
Inductive Operation : Type :=
| mkOperation (name : string) (operands : list Value)
    (resultTypes : list TorchType) (body : list Operation).

Definition opName (op : Operation) : string :=
  match op with mkOperation name _ _ _ => name end.

Definition getOperands (op : Operation) : list Value :=
  match op with mkOperation _ operands _ _ => operands end.

Definition getResultTypes (op : Operation) : list TorchType :=
  match op with mkOperation _ _ resultTypes _ => resultTypes end.

(** The builder: the operations created so far at the insertion point. *)
Record OpBuilder : Type := { inserted : list Operation }.

(** [b.create<Op>(loc, resultType, operands)]: one operation with one
    result is inserted, and its result is returned. *)
Definition create (name : string) (resultType : TorchType)
  (operands : list Value) (b : OpBuilder) : OpBuilder * Value :=
  ({| inserted := inserted b ++ [mkOperation name operands [resultType] []] |},
   OpResult name resultType operands).

Definition AtenSizeOp : string := "torch.aten.size".
Definition AtenLenTOp : string := "torch.aten.len.t".
Definition PrimDtypeOp : string := "torch.prim.dtype".
Definition DerefineOp : string := "torch.derefine".

(** [LibraryFunctionKind]: the pass asks for [DtypeFunction]; the sibling
    pass for shapes asks for [ShapeFunction]. *)
Inductive LibraryFunctionKind : Type :=
| ShapeFunction
| DtypeFunction.

(** A function of the library: its symbol and the types of its parameters.
    Modelled from the spec: the library is keyed by the name of an operation
    and the kind of function (section 6), so a function also tells the
    operation and the kind it stands for; its body is opaque but for the
    symbols it requires. *)
Record FuncOp : Type := {
  sym_name : string;
  libraryKind : LibraryFunctionKind;
  shadowedOp : string;
  getArgumentTypes : list TorchType;
  callees : list string
}.

(** ** The local argument adjusters *)

(** The type of a base transformation handed to [adjustFunctionArg]. *)
Definition BaseTransformation : Type :=
  OpBuilder -> Value -> TorchType -> OpBuilder * Value.

(** [rankArgAdjuster], lines 53-63. *)
Definition rankArgAdjuster : BaseTransformation :=
  fun b operand desiredType =>
    if isaIntType desiredType && isaBaseTensorType (getType operand) then
      let sizeListType := ListType IntType in
      let '(b1, size) := create AtenSizeOp sizeListType [operand] b in
      create AtenLenTOp desiredType [size] b1
    else (b, operand).

(** [dtypeArgAdjuster], lines 66-73. *)
Definition dtypeArgAdjuster : BaseTransformation :=
  fun b operand desiredType =>
    if isaIntType desiredType && isaBaseTensorType (getType operand) then
      create PrimDtypeOp desiredType [operand] b
    else (b, operand).

(** The default base transformation of [adjustFunctionArg]: the operand
    itself. *)
Definition noTransformation : BaseTransformation :=
  fun b operand _ => (b, operand).

(** ** The argument builder *)

Definition oneArgumentAssertion : string :=
  "`dtypeFunc` should have at least one argument for each argument in `originalOperands`".

Definition twoArgumentsAssertion : string :=
  "`dtypeFunc` should have two arguments for each tensor argument in `originalOperands`".

(** The generic adjuster [adjustFunctionArg] is defined in another file; the
    builder is embedded over any such adjuster. *)
Definition ArgAdjuster : Type :=
  OpBuilder -> Value -> TorchType -> BaseTransformation ->
  OpBuilder * FailureOr Value.

Section ArgsBuilder.

Variable adjustFunctionArg : ArgAdjuster.

(** The loop of lines 77-103. Its state is the builder, the signature
    cursor [desiredTypes] and the arguments collected so far; on success
    it returns the cursor together with the arguments.
    [desiredTypes.size() >= 2] holds exactly when the list is not empty
    after [drop_front]. *)
Fixpoint dtypeFunctionArgsLoop (b : OpBuilder) (originalOperands : list Value)
  (desiredTypes : list TorchType) (dtypeFuncArgs : list Value)
  : Outcome (OpBuilder * FailureOr (list TorchType * list Value)) :=
  match originalOperands with
  | [] => Returned (b, Success (desiredTypes, dtypeFuncArgs))
  | operand :: rest =>
      match desiredTypes with
      | [] => AssertionFailure oneArgumentAssertion
      | desiredType :: dropped =>
          match isTensorTypeOrWrappedTensorType (getType operand) with
          | AssertionFailure message => AssertionFailure message
          | Returned true =>
              match dropped with
              | [] => AssertionFailure twoArgumentsAssertion
              | desiredType' :: dropped' =>
                  match adjustFunctionArg b operand desiredType
                          rankArgAdjuster with
                  | (b1, Failure) => Returned (b1, Failure)
                  | (b1, Success rankArg) =>
                      match adjustFunctionArg b1 operand desiredType'
                              dtypeArgAdjuster with
                      | (b2, Failure) => Returned (b2, Failure)
                      | (b2, Success dtypeArg) =>
                          dtypeFunctionArgsLoop b2 rest dropped'
                            (dtypeFuncArgs ++ [rankArg; dtypeArg])
                      end
                  end
              end
          | Returned false =>
              match adjustFunctionArg b operand desiredType
                      noTransformation with
              | (b1, Failure) => Returned (b1, Failure)
              | (b1, Success otherArg) =>
                  dtypeFunctionArgsLoop b1 rest dropped
                    (dtypeFuncArgs ++ [otherArg])
              end
          end
      end
  end.

(** [dtypeFunctionArgsBuilder], lines 49-106. *)
Definition dtypeFunctionArgsBuilder (b : OpBuilder)
  (originalOperands : list Value) (dtypeFunc : FuncOp)
  : Outcome (OpBuilder * FailureOr (list Value)) :=
  match dtypeFunctionArgsLoop b originalOperands
          (getArgumentTypes dtypeFunc) [] with
  | AssertionFailure message => AssertionFailure message
  | Returned (b', Failure) => Returned (b', Failure)
  | Returned (b', Success (_, dtypeFuncArgs)) =>
      Returned (b', Success dtypeFuncArgs)
  end.

End ArgsBuilder.

(** ** The pass *)

(** The module: the module operation with the operations nested in it, and
    the library functions it defines (their bodies are opaque). The library
    is a module too. *)
Record ModuleOp : Type := {
  moduleOperation : Operation;
  moduleFunctions : list FuncOp
}.

Inductive WalkResult : Type :=
| advance
| interrupt
| skip.

Definition wasInterrupted (r : WalkResult) : bool :=
  match r with
  | interrupt => true
  | _ => false
  end.

Section Walk.

(** The state that the callback captures by reference. *)
Variable State : Type.

(** The callback is given an operation; it returns the operation that
    stands in its place afterwards, and the new state. *)
Variable callback :
  Operation -> State -> Outcome (Operation * State * WalkResult).

(** [op->walk(callback)] in the default order of MLIR: the operations
    nested in [op] are visited first, in sequence, then [op] itself; an
    interrupt ends the walk at once. Operations made by the callback are
    not visited. *)
Fixpoint walk (op : Operation) (st : State)
  : Outcome (Operation * State * WalkResult) :=
  match op with
  | mkOperation name operands resultTypes body =>
      match
        (fix walkBlock (ops : list Operation) (st : State)
           : Outcome (list Operation * State * WalkResult) :=
           match ops with
           | [] => Returned ([], st, advance)
           | nested :: rest =>
               match walk nested st with
               | AssertionFailure message => AssertionFailure message
               | Returned (nested', st', r) =>
                   if wasInterrupted r then
                     Returned (nested' :: rest, st', interrupt)
                   else
                     match walkBlock rest st' with
                     | AssertionFailure message => AssertionFailure message
                     | Returned (rest', st'', r') =>
                         Returned (nested' :: rest', st'', r')
                     end
               end
           end) body st
      with
      | AssertionFailure message => AssertionFailure message
      | Returned (body', st', r) =>
          if wasInterrupted r then
            Returned (mkOperation name operands resultTypes body', st',
                      interrupt)
          else callback (mkOperation name operands resultTypes body') st'
      end
  end.

(** The walk over the operations of one block, as a function of its own. *)
Fixpoint walkBlock (ops : list Operation) (st : State)
  : Outcome (list Operation * State * WalkResult) :=
  match ops with
  | [] => Returned ([], st, advance)
  | nested :: rest =>
      match walk nested st with
      | AssertionFailure message => AssertionFailure message
      | Returned (nested', st', r) =>
          if wasInterrupted r then
            Returned (nested' :: rest, st', interrupt)
          else
            match walkBlock rest st' with
            | AssertionFailure message => AssertionFailure message
            | Returned (rest', st'', r') =>
                Returned (nested' :: rest', st'', r')
            end
      end
  end.

End Walk.
Arguments walk {State} callback op st.
Arguments walkBlock {State} callback ops st.

(** The operations that the walk visits, in the order of the visits. *)
Fixpoint visited (op : Operation) : list Operation :=
  match op with
  | mkOperation _ _ _ body => flat_map visited body ++ [op]
  end.

Definition LibraryFunctionKind_eqb (k k' : LibraryFunctionKind) : bool :=
  match k, k' with
  | ShapeFunction, ShapeFunction => true
  | DtypeFunction, DtypeFunction => true
  | _, _ => false
  end.

(** Modelled from the spec: the lookup in the library, by the name of an
    operation and the kind of function (sections 4.3 and 6). *)
Definition lookupLibraryFunction (library : ModuleOp)
  (kind : LibraryFunctionKind) (name : string) : option FuncOp :=
  find (fun f => LibraryFunctionKind_eqb (libraryKind f) kind
                 && String.eqb (shadowedOp f) name)
       (moduleFunctions library).

(** The type of an argument builder, as the wrap utility takes it. *)
Definition ArgsBuilder : Type :=
  OpBuilder -> list Value -> FuncOp ->
  Outcome (OpBuilder * FailureOr (list Value)).

(** The type of [wrapWithCalculateOpIfLibraryFunctionAvailable]: from the
    operation and [functionsNeeded] to the operation that stands in its
    place, the new [functionsNeeded], and the signal for the walk. *)
Definition WrapUtility : Type :=
  Operation -> ModuleOp -> LibraryFunctionKind -> list string ->
  ArgsBuilder -> Outcome (Operation * list string * WalkResult).

(** What the pass did: the module it leaves, whether [signalPassFailure] was
    called, and the argument of each call of [importLibraryFunctions]. *)
Record PassResult : Type := {
  resultModule : ModuleOp;
  signalledFailure : bool;
  importCalls : list (list string)
}.

Section Pass.

Variable adjustFunctionArg : ArgAdjuster.
Variable wrapWithCalculateOpIfLibraryFunctionAvailable : WrapUtility.
Variable importLibraryFunctions :
  ModuleOp -> ModuleOp -> list string -> ModuleOp.
Variable getAbstractInterpLibrary : string.
Variable parseSourceString : string -> ModuleOp.

(** The callback of line 120. *)
Definition walkCallback (library : ModuleOp) (op : Operation)
  (functionsNeeded : list string)
  : Outcome (Operation * list string * WalkResult) :=
  wrapWithCalculateOpIfLibraryFunctionAvailable op library DtypeFunction
    functionsNeeded (dtypeFunctionArgsBuilder adjustFunctionArg).

(** [runOnOperation], lines 111-129. *)
Definition runOnOperation (module : ModuleOp) : Outcome PassResult :=
  let library := parseSourceString getAbstractInterpLibrary in
  let functionsNeeded : list string := [] in
  match walk (walkCallback library) (moduleOperation module)
          functionsNeeded with
  | AssertionFailure message => AssertionFailure message
  | Returned (op', functionsNeeded', walkResult) =>
      let module' := {| moduleOperation := op';
                        moduleFunctions := moduleFunctions module |} in
      if wasInterrupted walkResult then
        Returned {| resultModule := module';
                    signalledFailure := true;
                    importCalls := [] |}
      else
        Returned {| resultModule :=
                      importLibraryFunctions module' library
                        functionsNeeded';
                    signalledFailure := false;
                    importCalls := [functionsNeeded'] |}
  end.

End Pass.

(** The callback is invoked on [op] in the state [st] during the walk of
    [root] that starts in the state [st0]: [Invoked callback root st0 op st].
    The callback sees an operation after the walk of its region. *)
Inductive Invoked {State : Type}
  (callback : Operation -> State -> Outcome (Operation * State * WalkResult))
  : Operation -> State -> Operation -> State -> Prop :=
| invoked_self name operands resultTypes body st0 body' st r :
    walkBlock callback body st0 = Returned (body', st, r) ->
    wasInterrupted r = false ->
    Invoked callback (mkOperation name operands resultTypes body) st0
      (mkOperation name operands resultTypes body') st
| invoked_nested name operands resultTypes before nested after st0
    before' st1 r op st :
    walkBlock callback before st0 = Returned (before', st1, r) ->
    wasInterrupted r = false ->
    Invoked callback nested st1 op st ->
    Invoked callback
      (mkOperation name operands resultTypes (before ++ nested :: after)) st0
      op st.

Section WalkPredicates.

Variable State : Type.
Variable callback :
  Operation -> State -> Outcome (Operation * State * WalkResult).

(** An interrupted walk of [root] was interrupted by the callback, on an
    operation that the walk reached. *)
Definition InterruptHasOrigin (root : Operation) : Prop :=
  forall st0 root' st' r,
    walk callback root st0 = Returned (root', st', r) ->
    wasInterrupted r = true ->
    exists op st op' r',
      Invoked callback root st0 op st /\
      callback op st = Returned (op', st', r') /\
      wasInterrupted r' = true.

(** In a walk of [root] that is not interrupted the callback is invoked on
    every operation that the walk visits, and it does not interrupt. *)
Definition VisitsAreInvoked (root : Operation) : Prop :=
  forall st0 root' st' r,
    walk callback root st0 = Returned (root', st', r) ->
    wasInterrupted r = false ->
    forall visit, In visit (visited root) ->
    exists op st op' st'' r',
      Invoked callback root st0 op st /\
      opName op = opName visit /\
      callback op st = Returned (op', st'', r') /\
      wasInterrupted r' = false.

End WalkPredicates.
Arguments InterruptHasOrigin {State} callback root.
Arguments VisitsAreInvoked {State} callback root.

(** ** The needed-function collection *)

(** A name is included in the collection: it is put at the end unless it is
    there already. *)
Definition includeName (name : string) (names : list string) : list string :=
  if existsb (String.eqb name) names then names else names ++ [name].

(** The names of the library functions that match the operations [ops], one
    for each match, in the order of [ops]. *)
Definition matchedNames (library : ModuleOp) (ops : list Operation)
  : list string :=
  flat_map (fun op =>
              match lookupLibraryFunction library DtypeFunction (opName op) with
              | Some libFunc => [sym_name libFunc]
              | None => []
              end) ops.

(** The first occurrences of a list of names, in their order. *)
Fixpoint firstOccurrences (names : list string) : list string :=
  match names with
  | [] => []
  | name :: rest =>
      name :: filter (fun n => negb (String.eqb name n)) (firstOccurrences rest)
  end.

(** The names are included one after the other. *)
Definition includeAll (names : list string) (collection : list string)
  : list string :=
  fold_left (fun acc name => includeName name acc) names collection.

(** ** The collaborators, from their contracts *)

Module SpecModel.

(** Modelled from the spec: the generic single-slot adjuster
    [adjustFunctionArg] (section 6: identity pass-through, safe widening, or
    failure when no legal coercion exists). The base transformation is
    applied first; a value that already has the desired type passes through;
    a value is widened to [Any], or to [Optional] of its own type, by one
    inserted operation; there is no other coercion. *)
Definition adjustFunctionArg : ArgAdjuster :=
  fun b operand desiredType baseTransformation =>
    let '(b1, operand1) := baseTransformation b operand desiredType in
    if TorchType_eqb (getType operand1) desiredType then
      (b1, Success operand1)
    else if isaAnyType desiredType
            || TorchType_eqb (OptionalType (getType operand1)) desiredType then
      let '(b2, widened) := create DerefineOp desiredType [operand1] b1 in
      (b2, Success widened)
    else (b1, Failure).

(** Modelled from the spec: the wrapping construct of section 4.3. Its
    region holds [op], the operations that the argument builder inserted,
    and the call of the library function on the adapted arguments. *)
Definition calculateOp (op : Operation) (b : OpBuilder) (libFunc : FuncOp)
  (libFuncArgs : list Value) : Operation :=
  mkOperation "torch.dtype.calculate" [] (getResultTypes op)
    (op :: inserted b ++ [mkOperation (sym_name libFunc) libFuncArgs [] []]).

(** Modelled from the spec: the wrap utility
    [wrapWithCalculateOpIfLibraryFunctionAvailable] (sections 4.3 and 6). An
    operation without a matching library function is left untouched and the
    walk continues. Otherwise the argument builder is called once, on the
    operands of the operation and the matched function; its failure
    interrupts the walk; on success the operation is wrapped and the name of
    the function is included in the needed functions. *)
Definition wrapWithCalculateOpIfLibraryFunctionAvailable : WrapUtility :=
  fun op library libFuncKind libFuncNamesUsed libFuncArgsBuilder =>
    match lookupLibraryFunction library libFuncKind (opName op) with
    | None => Returned (op, libFuncNamesUsed, advance)
    | Some libFunc =>
        match libFuncArgsBuilder {| inserted := [] |} (getOperands op)
                libFunc with
        | AssertionFailure message => AssertionFailure message
        | Returned (b, Failure) => Returned (op, libFuncNamesUsed, interrupt)
        | Returned (b, Success libFuncArgs) =>
            Returned (calculateOp op b libFunc libFuncArgs,
                      includeName (sym_name libFunc) libFuncNamesUsed,
                      advance)
        end
    end.

Definition lookupSymbol (library : ModuleOp) (symbol : string)
  : option FuncOp :=
  find (fun f => String.eqb (sym_name f) symbol) (moduleFunctions library).

(** Modelled from the spec: the names together with what they transitively
    require (section 6), for the import utility below. *)
Fixpoint transitiveNames (fuel : nat) (library : ModuleOp)
  (names : list string) : list string :=
  match fuel with
  | 0 => names
  | S fuel' =>
      let required :=
        flat_map (fun name => match lookupSymbol library name with
                              | Some f => callees f
                              | None => []
                              end) names in
      transitiveNames fuel' library
        (fold_left (fun acc name => includeName name acc) required names)
  end.

(** Modelled from the spec: the import utility [importLibraryFunctions]
    (section 6): the named functions and what they transitively require are
    spliced into the program; a function that is present already is not
    spliced in again. *)
Definition importLibraryFunctions (module library : ModuleOp)
  (functionsNeeded : list string) : ModuleOp :=
  let wanted :=
    transitiveNames (List.length (moduleFunctions library)) library
      functionsNeeded in
  let present (f : FuncOp) :=
    existsb (fun g => String.eqb (sym_name g) (sym_name f))
      (moduleFunctions module) in
  {| moduleOperation := moduleOperation module;
     moduleFunctions :=
       moduleFunctions module ++
       filter (fun f => existsb (String.eqb (sym_name f)) wanted
                        && negb (present f))
         (moduleFunctions library) |}.

End SpecModel.

(** ** What the builder is expected to produce *)

Section Contributions.

Variable adjustFunctionArg : ArgAdjuster.

(** What one operand contributes: the signature slots it consumes and the
    values it adds. An operand that is a tensor or a wrapped tensor takes
    two slots and gives the rank surrogate, then the dtype surrogate; any
    other operand takes one slot and gives one adjusted value. *)
Definition contributes (operand : Value) (part : list TorchType * list Value)
  : Prop :=
  match isTensorTypeOrWrappedTensorType (getType operand) with
  | Returned true =>
      exists rankType dtypeType b0 b1 b2 rankArg dtypeArg,
        part = ([rankType; dtypeType], [rankArg; dtypeArg]) /\
        adjustFunctionArg b0 operand rankType rankArgAdjuster
        = (b1, Success rankArg) /\
        adjustFunctionArg b1 operand dtypeType dtypeArgAdjuster
        = (b2, Success dtypeArg)
  | Returned false =>
      exists slotType b0 b1 otherArg,
        part = ([slotType], [otherArg]) /\
        adjustFunctionArg b0 operand slotType noTransformation
        = (b1, Success otherArg)
  | AssertionFailure _ => False
  end.

End Contributions.

(** The number of signature slots that an operand takes. *)
Definition operandSlots (operand : Value) : nat :=
  match isTensorTypeOrWrappedTensorType (getType operand) with
  | Returned true => 2
  | _ => 1
  end.

Definition slotsNeeded (originalOperands : list Value) : nat :=
  list_sum (map operandSlots originalOperands).

(** The values that the local adjusters give for an operand: for a base
    tensor, the length of its size list and its dtype; for any other operand,
    the operand itself. *)
Definition surrogates (operand : Value) : list Value :=
  if isaBaseTensorType (getType operand) then
    [OpResult AtenLenTOp IntType
       [OpResult AtenSizeOp (ListType IntType) [operand]];
     OpResult PrimDtypeOp IntType [operand]]
  else [operand].

(** The operations that the local adjusters insert for an operand. *)
Definition surrogateOps (operand : Value) : list Operation :=
  if isaBaseTensorType (getType operand) then
    [mkOperation AtenSizeOp [operand] [ListType IntType] [];
     mkOperation AtenLenTOp
       [OpResult AtenSizeOp (ListType IntType) [operand]] [IntType] [];
     mkOperation PrimDtypeOp [operand] [IntType] []]
  else [].

(** The builder [b'] holds what [b] holds, in the same order, and possibly
    more after it. *)
Definition Extends (b b' : OpBuilder) : Prop :=
  exists ops, inserted b' = inserted b ++ ops.

(** The bare operations of a program: the operations that the walk visits
    outside the region of every [torch.dtype.calculate] operation, these
    operations themselves apart. *)
Fixpoint bareOperations (op : Operation) : list Operation :=
  match op with
  | mkOperation name _ _ body =>
      if String.eqb name "torch.dtype.calculate" then []
      else flat_map bareOperations body ++ [op]
  end.

(** ** Concrete inputs *)

Module Examples.

Definition emptyBuilder : OpBuilder := {| inserted := [] |}.

Definition tensorOperand : Value := BlockArgument 0 ValueTensorType.
Definition intOperand : Value := BlockArgument 1 IntType.
Definition optionalTensorOperand : Value :=
  BlockArgument 0 (OptionalType ValueTensorType).

Definition dtypeFn (symbol op : string) (argumentTypes : list TorchType)
  : FuncOp :=
  {| sym_name := symbol; libraryKind := DtypeFunction; shadowedOp := op;
     getArgumentTypes := argumentTypes; callees := [] |}.

(** [f_dtype(rank : int, dtype : int, other : int)] *)
Definition f_dtype : FuncOp := dtypeFn "f_dtype" "f" [IntType; IntType; IntType].
(** A function with a single parameter. *)
Definition g_dtype : FuncOp := dtypeFn "g_dtype" "g" [IntType].
(** A function with two parameters. *)
Definition h_dtype : FuncOp := dtypeFn "h_dtype" "h" [IntType; IntType].

(** The library: the three functions above. *)
Definition dtypeLibrary : ModuleOp :=
  {| moduleOperation := mkOperation "builtin.module" [] [] [];
     moduleFunctions := [f_dtype; g_dtype; h_dtype] |}.

Definition libraryText : string := "the text of the library".
Definition parse (text : string) : ModuleOp := dtypeLibrary.

(** A program: one function whose body is made of the given operations. *)
Definition program (ops : list Operation) : ModuleOp :=
  {| moduleOperation :=
       mkOperation "builtin.module" [] []
         [mkOperation "func.func" [] [] ops];
     moduleFunctions := [] |}.

Definition f_op : Operation :=
  mkOperation "f" [tensorOperand; intOperand] [ValueTensorType] [].
Definition g_op : Operation :=
  mkOperation "g" [intOperand] [ValueTensorType] [].
(** [h] on an optional tensor: the adjuster of the model has no coercion
    from the optional tensor to the int of the signature. *)
Definition h_op : Operation :=
  mkOperation "h" [optionalTensorOperand] [ValueTensorType] [].
(** An operation without a function in the library. *)
Definition k_op : Operation :=
  mkOperation "k" [tensorOperand] [ValueTensorType] [].

(** The callback of the pass and the pass, over the collaborators as they
    are modelled from the spec. *)
Definition callback
  : Operation -> list string -> Outcome (Operation * list string * WalkResult) :=
  walkCallback SpecModel.adjustFunctionArg
    SpecModel.wrapWithCalculateOpIfLibraryFunctionAvailable
    (parse libraryText).

Definition pass : ModuleOp -> Outcome PassResult :=
  runOnOperation SpecModel.adjustFunctionArg
    SpecModel.wrapWithCalculateOpIfLibraryFunctionAvailable
    SpecModel.importLibraryFunctions libraryText parse.

(** An adjuster that never fails: the base transformation is applied and
    its value is handed on as it is. *)
Definition passAsIs : ArgAdjuster :=
  fun b operand desiredType baseTransformation =>
    let '(b1, operand1) := baseTransformation b operand desiredType in
    (b1, Success operand1).

Definition tupleOperand : Value := BlockArgument 2 (TupleType [IntType]).

(** [g] on a tensor: its function has a single parameter. *)
Definition g_tensor_op : Operation :=
  mkOperation "g" [tensorOperand] [ValueTensorType] [].

(** A program whose operations stand in the module itself. *)
Definition flatProgram (ops : list Operation) : ModuleOp :=
  {| moduleOperation := mkOperation "builtin.module" [] [] ops;
     moduleFunctions := [] |}.

(** [g_op] as the wrap utility of the model wraps it, and the program
    [program [g_op]] as one run and as two runs of the pass leave it. *)
Definition wrapped_g : Operation :=
  SpecModel.calculateOp g_op emptyBuilder g_dtype [intOperand].

Definition rewrittenOnce : ModuleOp :=
  {| moduleOperation :=
       mkOperation "builtin.module" [] []
         [mkOperation "func.func" [] [] [wrapped_g]];
     moduleFunctions := [g_dtype] |}.

Definition rewrittenTwice : ModuleOp :=
  {| moduleOperation :=
       mkOperation "builtin.module" [] []
         [mkOperation "func.func" [] []
            [mkOperation "torch.dtype.calculate" [] [ValueTensorType]
               [wrapped_g; mkOperation "g_dtype" [intOperand] [] []]]];
     moduleFunctions := [g_dtype] |}.

End Examples.

(** ** Theorems on the classifier *)

Lemma classifier_unwrapped (type : TorchType) :
  isTensorTypeOrWrappedTensorType type =
  isTensorTypeOrWrappedTensorType (unwrappedType type).
Proof.
  induction type; simpl; auto.
Qed.

(** C4. On a type that is not a tuple type the classifier returns [true] for
    a tensor type, the classification of the contained type for
    [Optional(inner)] and [List(inner)], and [false] for every other type.
    The classifier is a function of the type alone: it reads and writes no
    state. *)
Theorem classifier_cases (type : TorchType)
  (Hnot_tuple : isaTupleType type = false) :
  (isaBaseTensorType type = true ->
   isTensorTypeOrWrappedTensorType type = Returned true) /\
  (forall inner, type = OptionalType inner \/ type = ListType inner ->
   isTensorTypeOrWrappedTensorType type =
   isTensorTypeOrWrappedTensorType inner) /\
  (isaBaseTensorType type = false ->
   (forall inner, type <> OptionalType inner /\ type <> ListType inner) ->
   isTensorTypeOrWrappedTensorType type = Returned false).
Proof.
  repeat split.
  - intro Htensor. destruct type; simpl in *; congruence.
  - intros inner [-> | ->]; reflexivity.
  - intros Hbase Hother.
    destruct type; simpl in *; try congruence.
    + destruct (Hother type) as [Habs _]. congruence.
    + destruct (Hother type) as [_ Habs]. congruence.
Qed.

Lemma classifier_cases_witness :
  isaTupleType (OptionalType ValueTensorType) = false /\
  isTensorTypeOrWrappedTensorType (OptionalType ValueTensorType) =
  isTensorTypeOrWrappedTensorType ValueTensorType.
Proof.
  split; [reflexivity |].
  apply (classifier_cases (OptionalType ValueTensorType));
    [reflexivity | left; reflexivity].
Defined.

(** On a type with no tuple type at the top or below its [Optional] and
    [List] wrappers the classifier returns a boolean. *)
Lemma classifier_returns (type : TorchType) :
  isaTupleType (unwrappedType type) = false ->
  exists result, isTensorTypeOrWrappedTensorType type = Returned result.
Proof.
  intro Hfree. rewrite classifier_unwrapped.
  induction type; simpl in *; eauto; congruence.
Qed.

(** The assertion of the classifier is tripped by a tuple type only. *)
Lemma classifier_failure (type : TorchType) (message : string) :
  isTensorTypeOrWrappedTensorType type = AssertionFailure message ->
  isaTupleType (unwrappedType type) = true /\ message = tupleAssertion.
Proof.
  rewrite classifier_unwrapped.
  induction type; simpl in *; auto; try discriminate.
  intros [= <-]. now split.
Qed.

(** ** Theorems on the local adjusters *)

(** C10. The rank adjuster inserts the size and the length operation, and
    the dtype adjuster the dtype operation, when the desired type is the Int
    type and the operand has a base tensor type, and only then: when the
    desired type is not Int, or the type of the operand is not a base tensor
    type (in particular when it is an [Optional] or a [List] type), both
    adjusters insert nothing and return the operand itself. *)
Theorem local_adjusters_gate (b : OpBuilder) (operand : Value)
  (desiredType : TorchType) :
  (isaIntType desiredType = true ->
   isaBaseTensorType (getType operand) = true ->
   rankArgAdjuster b operand desiredType
   = ({| inserted :=
           (inserted b
            ++ [mkOperation AtenSizeOp [operand] [ListType IntType] []])
           ++ [mkOperation AtenLenTOp
                 [OpResult AtenSizeOp (ListType IntType) [operand]]
                 [desiredType] []] |},
      OpResult AtenLenTOp desiredType
        [OpResult AtenSizeOp (ListType IntType) [operand]]) /\
   dtypeArgAdjuster b operand desiredType
   = ({| inserted :=
           inserted b ++ [mkOperation PrimDtypeOp [operand] [desiredType] []] |},
      OpResult PrimDtypeOp desiredType [operand])) /\
  (isaIntType desiredType = false \/
   isaBaseTensorType (getType operand) = false ->
   rankArgAdjuster b operand desiredType = (b, operand) /\
   dtypeArgAdjuster b operand desiredType = (b, operand)) /\
  (forall inner,
     getType operand = OptionalType inner \/ getType operand = ListType inner ->
     rankArgAdjuster b operand desiredType = (b, operand) /\
     dtypeArgAdjuster b operand desiredType = (b, operand)).
Proof.
  unfold rankArgAdjuster, dtypeArgAdjuster.
  split; [| split].
  - intros -> ->. split; reflexivity.
  - intros [-> | ->]; rewrite ?andb_false_r; split; reflexivity.
  - intros inner [-> | ->]; simpl; rewrite andb_false_r; split; reflexivity.
Qed.

Lemma local_adjusters_gate_witness :
  getType Examples.optionalTensorOperand = OptionalType ValueTensorType /\
  rankArgAdjuster Examples.emptyBuilder Examples.optionalTensorOperand IntType
  = (Examples.emptyBuilder, Examples.optionalTensorOperand) /\
  dtypeArgAdjuster Examples.emptyBuilder Examples.optionalTensorOperand IntType
  = (Examples.emptyBuilder, Examples.optionalTensorOperand).
Proof.
  split; [reflexivity |].
  apply (proj2 (proj2 (local_adjusters_gate Examples.emptyBuilder
                         Examples.optionalTensorOperand IntType))
           ValueTensorType).
  left; reflexivity.
Defined.

(** ** Theorems on the argument builder *)

Section ArgsBuilderProperties.

Variable adjustFunctionArg : ArgAdjuster.

Local Abbreviation loop := (dtypeFunctionArgsLoop adjustFunctionArg).
Local Abbreviation builder := (dtypeFunctionArgsBuilder adjustFunctionArg).

(** The builder succeeds exactly when its loop does, with the same
    arguments. *)
Lemma builder_success (b : OpBuilder) (operands : list Value)
  (dtypeFunc : FuncOp) (b' : OpBuilder) (args : list Value) :
  builder b operands dtypeFunc = Returned (b', Success args) <->
  exists remaining,
    loop b operands (getArgumentTypes dtypeFunc) []
    = Returned (b', Success (remaining, args)).
Proof.
  unfold dtypeFunctionArgsBuilder.
  destruct (dtypeFunctionArgsLoop adjustFunctionArg b operands
              (getArgumentTypes dtypeFunc) [])
    as [[b1 [[remaining args1] | ]] | message].
  - split.
    + intros [= -> ->]. now exists remaining.
    + intros [remaining' [= -> _ ->]]. reflexivity.
  - split; [discriminate | intros [? ?]; discriminate].
  - split; [discriminate | intros [? ?]; discriminate].
Qed.

(** The invariant of the loop: when it succeeds, the operands are matched
    one by one with the slots they consumed and the values they added. *)
Lemma loop_parts (operands : list Value) :
  forall b desiredTypes acc b' remaining args,
    loop b operands desiredTypes acc
    = Returned (b', Success (remaining, args)) ->
    exists parts,
      Forall2 (contributes adjustFunctionArg) operands parts /\
      args = acc ++ concat (map snd parts) /\
      desiredTypes = concat (map fst parts) ++ remaining.
Proof.
  induction operands as [| operand rest IH];
    intros b desiredTypes acc b' remaining args Hloop; simpl in Hloop.
  - injection Hloop as -> -> ->.
    exists []. repeat split; [constructor | now rewrite app_nil_r].
  - destruct desiredTypes as [| desiredType dropped]; [discriminate |].
    destruct (isTensorTypeOrWrappedTensorType (getType operand))
      as [[|] | message] eqn:Hclass; [| | discriminate].
    + destruct dropped as [| desiredType' dropped']; [discriminate |].
      destruct (adjustFunctionArg b operand desiredType rankArgAdjuster)
        as [b1 [rankArg |]] eqn:Hrank; [| discriminate].
      destruct (adjustFunctionArg b1 operand desiredType' dtypeArgAdjuster)
        as [b2 [dtypeArg |]] eqn:Hdtype; [| discriminate].
      destruct (IH _ _ _ _ _ _ Hloop) as (parts & Hparts & -> & ->).
      exists (([desiredType; desiredType'], [rankArg; dtypeArg]) :: parts).
      repeat split.
      * constructor; [| exact Hparts].
        unfold contributes. rewrite Hclass.
        now exists desiredType, desiredType', b, b1, b2, rankArg, dtypeArg.
      * simpl. now rewrite <- app_assoc.
    + destruct (adjustFunctionArg b operand desiredType noTransformation)
        as [b1 [otherArg |]] eqn:Hother; [| discriminate].
      destruct (IH _ _ _ _ _ _ Hloop) as (parts & Hparts & -> & ->).
      exists (([desiredType], [otherArg]) :: parts).
      repeat split.
      * constructor; [| exact Hparts].
        unfold contributes. rewrite Hclass.
        now exists desiredType, b, b1, otherArg.
      * simpl. now rewrite <- app_assoc.
Qed.

(** The values that the parts add are as many as the slots they take. *)
Lemma parts_count (operands : list Value)
  (parts : list (list TorchType * list Value)) :
  Forall2 (contributes adjustFunctionArg) operands parts ->
  List.length (concat (map snd parts)) = slotsNeeded operands /\
  List.length (concat (map fst parts)) = slotsNeeded operands.
Proof.
  unfold slotsNeeded.
  induction 1 as [| operand part operands parts Hpart _ [IHv IHs]];
    [split; reflexivity |].
  simpl. rewrite !length_app, IHv, IHs.
  unfold contributes, operandSlots in *.
  destruct (isTensorTypeOrWrappedTensorType (getType operand))
    as [[|] | message]; [| | contradiction].
  - destruct Hpart as (? & ? & ? & ? & ? & ? & ? & -> & _). split; reflexivity.
  - destruct Hpart as (? & ? & ? & ? & -> & _). split; reflexivity.
Qed.

(** C1. When the builder succeeds, the adapted list is the concatenation,
    in the order of the operands, of one part for each operand: for an
    operand whose type is a tensor or a wrapped tensor, the rank surrogate
    followed by the dtype surrogate, adjusted to two consecutive slots of
    the signature; for any other operand, the one value that the generic
    adjuster gives for it, at one slot. *)
Theorem builder_contributions (b : OpBuilder) (operands : list Value)
  (dtypeFunc : FuncOp) (b' : OpBuilder) (args : list Value)
  (Hsuccess : builder b operands dtypeFunc = Returned (b', Success args)) :
  exists parts remaining,
    Forall2 (contributes adjustFunctionArg) operands parts /\
    args = concat (map snd parts) /\
    getArgumentTypes dtypeFunc = concat (map fst parts) ++ remaining.
Proof.
  apply builder_success in Hsuccess as [remaining Hloop].
  apply loop_parts in Hloop as (parts & Hparts & Hargs & Hslots).
  now exists parts, remaining.
Qed.

(** C3, as the code has it. When the builder succeeds, the number of
    adapted operands is the number of slots that the cursor went over: two
    for each operand that is a tensor or a wrapped tensor, one for each
    other operand. It is the declared arity less the slots that are left at
    the cursor; the builder does not look at those. *)
Theorem builder_count (b : OpBuilder) (operands : list Value)
  (dtypeFunc : FuncOp) (b' : OpBuilder) (args : list Value)
  (Hsuccess : builder b operands dtypeFunc = Returned (b', Success args)) :
  List.length args = slotsNeeded operands /\
  exists remaining,
    loop b operands (getArgumentTypes dtypeFunc) []
    = Returned (b', Success (remaining, args)) /\
    List.length args + List.length remaining
    = List.length (getArgumentTypes dtypeFunc).
Proof.
  apply builder_success in Hsuccess as [remaining Hloop].
  pose proof Hloop as Hinv.
  apply loop_parts in Hinv as (parts & Hparts & Hargs & Hslots).
  destruct (parts_count operands parts Hparts) as [Hvalues Htaken].
  simpl in Hargs. subst args. split; [exact Hvalues |].
  exists remaining. split; [exact Hloop |].
  rewrite Hslots, length_app. lia.
Qed.

(** The loop over a list of operands that ends with [suffix] goes on from
    the state that the loop over the operands before reached. *)
Lemma loop_app (prefix suffix : list Value) :
  forall b desiredTypes acc b' remaining args,
    loop b prefix desiredTypes acc
    = Returned (b', Success (remaining, args)) ->
    loop b (prefix ++ suffix) desiredTypes acc
    = loop b' suffix remaining args.
Proof.
  induction prefix as [| operand rest IH];
    intros b desiredTypes acc b' remaining args Hloop; simpl in *.
  - now injection Hloop as -> -> ->.
  - destruct desiredTypes as [| desiredType dropped]; [discriminate |].
    destruct (isTensorTypeOrWrappedTensorType (getType operand))
      as [[|] | message]; [| | discriminate].
    + destruct dropped as [| desiredType' dropped']; [discriminate |].
      destruct (adjustFunctionArg b operand desiredType rankArgAdjuster)
        as [b1 [rankArg |]]; [| discriminate].
      destruct (adjustFunctionArg b1 operand desiredType' dtypeArgAdjuster)
        as [b2 [dtypeArg |]]; [| discriminate].
      now apply IH.
    + destruct (adjustFunctionArg b operand desiredType noTransformation)
        as [b1 [otherArg |]]; [| discriminate].
      now apply IH.
Qed.

(** C2, as the code has it. When the loop reaches an operand whose type is
    a tensor or a wrapped tensor and fewer than two slots of the signature
    are left, the builder trips an assertion: it does not return the
    failure value. *)
Theorem builder_too_few_slots (b : OpBuilder) (prefix : list Value)
  (operand : Value) (rest : list Value) (dtypeFunc : FuncOp)
  (b' : OpBuilder) (remaining : list TorchType) (args : list Value)
  (Hprefix : loop b prefix (getArgumentTypes dtypeFunc) []
             = Returned (b', Success (remaining, args)))
  (Htensor : isTensorTypeOrWrappedTensorType (getType operand)
             = Returned true)
  (Hfew : List.length remaining < 2) :
  builder b (prefix ++ operand :: rest) dtypeFunc
  = AssertionFailure (match remaining with
                      | [] => oneArgumentAssertion
                      | _ => twoArgumentsAssertion
                      end).
Proof.
  unfold dtypeFunctionArgsBuilder.
  erewrite loop_app by exact Hprefix.
  simpl.
  destruct remaining as [| slot [| slot' remaining']]; simpl in *;
    [reflexivity | now rewrite Htensor | lia].
Qed.

(** The loop trips the assertion of the classifier only on an operand
    whose type holds a tuple type. *)
Lemma loop_tuple_assertion (operands : list Value) :
  Forall (fun operand => isaTupleType (unwrappedType (getType operand)) = false)
    operands ->
  forall b desiredTypes acc,
    loop b operands desiredTypes acc <> AssertionFailure tupleAssertion.
Proof.
  induction 1 as [| operand rest Hoperand _ IH]; intros b desiredTypes acc;
    simpl; [discriminate |].
  destruct desiredTypes as [| desiredType dropped]; [discriminate |].
  destruct (classifier_returns _ Hoperand) as [[|] ->].
  - destruct dropped as [| desiredType' dropped']; [discriminate |].
    destruct (adjustFunctionArg b operand desiredType rankArgAdjuster)
      as [b1 [rankArg |]]; [| discriminate].
    destruct (adjustFunctionArg b1 operand desiredType' dtypeArgAdjuster)
      as [b2 [dtypeArg |]]; [apply IH | discriminate].
  - destruct (adjustFunctionArg b operand desiredType noTransformation)
      as [b1 [otherArg |]]; [apply IH | discriminate].
Qed.

End ArgsBuilderProperties.

(** C5. On every tuple type the classifier trips its assertion: it does not
    return [false], nor any boolean. The assertion is tripped when a tuple
    type reaches the classifier, as the type given or as the type left below
    its [Optional] and [List] wrappers, and only then: on every other type
    the classifier returns a boolean, and the argument builder does not trip
    this assertion when no operand has such a type. *)
Theorem classifier_tuple_fails_fast :
  (forall containedTypes,
     isTensorTypeOrWrappedTensorType (TupleType containedTypes)
     = AssertionFailure tupleAssertion) /\
  (forall type,
     isaTupleType (unwrappedType type) = true ->
     isTensorTypeOrWrappedTensorType type = AssertionFailure tupleAssertion) /\
  (forall type,
     isaTupleType (unwrappedType type) = false ->
     exists result, isTensorTypeOrWrappedTensorType type = Returned result) /\
  (forall type message,
     isTensorTypeOrWrappedTensorType type = AssertionFailure message ->
     isaTupleType (unwrappedType type) = true) /\
  (forall adjustFunctionArg b operands dtypeFunc,
     Forall (fun operand =>
               isaTupleType (unwrappedType (getType operand)) = false)
       operands ->
     dtypeFunctionArgsBuilder adjustFunctionArg b operands dtypeFunc
     <> AssertionFailure tupleAssertion).
Proof.
  split; [reflexivity | split; [| split; [exact classifier_returns | split]]].
  - intros type Htuple. rewrite classifier_unwrapped.
    destruct (unwrappedType type); simpl in *; try discriminate. reflexivity.
  - intros type message Hfailure.
    exact (proj1 (classifier_failure _ _ Hfailure)).
  - intros adjustFunctionArg b operands dtypeFunc Hfree.
    unfold dtypeFunctionArgsBuilder.
    pose proof (loop_tuple_assertion adjustFunctionArg operands Hfree b
                  (getArgumentTypes dtypeFunc) []) as Hloop.
    destruct (dtypeFunctionArgsLoop adjustFunctionArg b operands
                (getArgumentTypes dtypeFunc) [])
      as [[b' [[remaining args] |]] | message];
      [discriminate | discriminate |].
    intros [= ->]. now apply Hloop.
Qed.

Lemma classifier_tuple_fails_fast_witness :
  isaTupleType (unwrappedType (ListType (OptionalType IntType))) = false /\
  exists result,
    isTensorTypeOrWrappedTensorType (ListType (OptionalType IntType))
    = Returned result.
Proof.
  split; [reflexivity |].
  apply (proj1 (proj2 (proj2 classifier_tuple_fails_fast))
           (ListType (OptionalType IntType))).
  reflexivity.
Defined.

Lemma builder_contributions_witness :
  dtypeFunctionArgsBuilder SpecModel.adjustFunctionArg Examples.emptyBuilder
    [Examples.tensorOperand; Examples.intOperand] Examples.f_dtype
  = Returned
      ({| inserted :=
            [mkOperation AtenSizeOp [Examples.tensorOperand]
               [ListType IntType] [];
             mkOperation AtenLenTOp
               [OpResult AtenSizeOp (ListType IntType)
                  [Examples.tensorOperand]] [IntType] [];
             mkOperation PrimDtypeOp [Examples.tensorOperand] [IntType] []] |},
       Success
         [OpResult AtenLenTOp IntType
            [OpResult AtenSizeOp (ListType IntType) [Examples.tensorOperand]];
          OpResult PrimDtypeOp IntType [Examples.tensorOperand];
          Examples.intOperand]) /\
  exists parts remaining,
    Forall2 (contributes SpecModel.adjustFunctionArg)
      [Examples.tensorOperand; Examples.intOperand] parts /\
    [OpResult AtenLenTOp IntType
       [OpResult AtenSizeOp (ListType IntType) [Examples.tensorOperand]];
     OpResult PrimDtypeOp IntType [Examples.tensorOperand];
     Examples.intOperand] = concat (map snd parts) /\
    getArgumentTypes Examples.f_dtype = concat (map fst parts) ++ remaining.
Proof.
  split; [reflexivity |].
  eapply (builder_contributions SpecModel.adjustFunctionArg
            Examples.emptyBuilder).
  reflexivity.
Defined.

(** C3 fails as stated: for the one operand [int] and a function of two
    parameters the builder succeeds with one adapted operand. *)
Lemma builder_count_counterexample :
  dtypeFunctionArgsBuilder SpecModel.adjustFunctionArg Examples.emptyBuilder
    [Examples.intOperand] Examples.h_dtype
  = Returned (Examples.emptyBuilder, Success [Examples.intOperand]) /\
  List.length [Examples.intOperand]
  <> List.length (getArgumentTypes Examples.h_dtype).
Proof.
  split; [reflexivity | discriminate].
Qed.

Lemma builder_count_witness :
  dtypeFunctionArgsBuilder SpecModel.adjustFunctionArg Examples.emptyBuilder
    [Examples.intOperand] Examples.h_dtype
  = Returned (Examples.emptyBuilder, Success [Examples.intOperand]) /\
  List.length [Examples.intOperand] = slotsNeeded [Examples.intOperand] /\
  exists remaining,
    dtypeFunctionArgsLoop SpecModel.adjustFunctionArg Examples.emptyBuilder
      [Examples.intOperand] (getArgumentTypes Examples.h_dtype) []
    = Returned (Examples.emptyBuilder, Success (remaining, [Examples.intOperand])) /\
    List.length [Examples.intOperand] + List.length remaining
    = List.length (getArgumentTypes Examples.h_dtype).
Proof.
  split; [reflexivity |].
  apply (builder_count SpecModel.adjustFunctionArg Examples.emptyBuilder
           [Examples.intOperand] Examples.h_dtype).
  reflexivity.
Defined.

(** C2 fails as stated: for the one operand [tensor] and a function of one
    parameter the builder does not return the failure value. *)
Lemma builder_too_few_slots_counterexample :
  isTensorTypeOrWrappedTensorType (getType Examples.tensorOperand)
  = Returned true /\
  List.length (getArgumentTypes Examples.g_dtype) < 2 /\
  dtypeFunctionArgsBuilder SpecModel.adjustFunctionArg Examples.emptyBuilder
    [Examples.tensorOperand] Examples.g_dtype
  = AssertionFailure twoArgumentsAssertion /\
  ~ (exists b',
       dtypeFunctionArgsBuilder SpecModel.adjustFunctionArg
         Examples.emptyBuilder [Examples.tensorOperand] Examples.g_dtype
       = Returned (b', Failure)).
Proof.
  repeat split; [simpl; lia | intros [b' Hfailure]; discriminate Hfailure].
Qed.

Lemma builder_too_few_slots_witness :
  dtypeFunctionArgsLoop SpecModel.adjustFunctionArg Examples.emptyBuilder
    [Examples.intOperand] (getArgumentTypes Examples.h_dtype) []
  = Returned (Examples.emptyBuilder, Success ([IntType], [Examples.intOperand])) /\
  isTensorTypeOrWrappedTensorType (getType Examples.tensorOperand)
  = Returned true /\
  List.length [IntType] < 2 /\
  dtypeFunctionArgsBuilder SpecModel.adjustFunctionArg Examples.emptyBuilder
    ([Examples.intOperand] ++ Examples.tensorOperand :: []) Examples.h_dtype
  = AssertionFailure twoArgumentsAssertion.
Proof.
  split; [reflexivity | split; [reflexivity | split; [simpl; lia |]]].
  apply (builder_too_few_slots SpecModel.adjustFunctionArg
           Examples.emptyBuilder [Examples.intOperand] Examples.tensorOperand
           [] Examples.h_dtype Examples.emptyBuilder [IntType]
           [Examples.intOperand]);
    [reflexivity | reflexivity | simpl; lia].
Defined.

(** ** Scenario A *)

Section ScenarioA.

Variable adjustFunctionArg : ArgAdjuster.

(** The part of the contract of the generic adjuster that the scenario
    rests on: the base transformation is applied first, and a value that
    has the desired type then passes through. *)
Hypothesis adjust_pass_through :
  forall b operand desiredType (baseTransformation : BaseTransformation),
    getType (snd (baseTransformation b operand desiredType)) = desiredType ->
    adjustFunctionArg b operand desiredType baseTransformation
    = (fst (baseTransformation b operand desiredType),
       Success (snd (baseTransformation b operand desiredType))).

(** C7. For the operands [(tensor, int)] and a dtype function of signature
    [(int, int, int)] the builder succeeds with exactly three values: the
    length of the size list of the tensor, the dtype of the tensor, and the
    int. The first is the result of a length operation inserted after a size
    operation on the tensor, the second the result of a dtype operation on
    the same tensor; these three operations are inserted in this order. *)
Theorem builder_tensor_int (b : OpBuilder) (tensor other : Value)
  (dtypeFunc : FuncOp)
  (Htensor : isaBaseTensorType (getType tensor) = true)
  (Hint : getType other = IntType)
  (Hsignature : getArgumentTypes dtypeFunc = [IntType; IntType; IntType]) :
  dtypeFunctionArgsBuilder adjustFunctionArg b [tensor; other] dtypeFunc
  = Returned
      ({| inserted :=
            inserted b ++
            [mkOperation AtenSizeOp [tensor] [ListType IntType] [];
             mkOperation AtenLenTOp
               [OpResult AtenSizeOp (ListType IntType) [tensor]] [IntType] [];
             mkOperation PrimDtypeOp [tensor] [IntType] []] |},
       Success
         [OpResult AtenLenTOp IntType
            [OpResult AtenSizeOp (ListType IntType) [tensor]];
          OpResult PrimDtypeOp IntType [tensor];
          other]).
Proof.
  unfold dtypeFunctionArgsBuilder. rewrite Hsignature. simpl.
  assert (Hclass : isTensorTypeOrWrappedTensorType (getType tensor)
                   = Returned true)
    by (destruct (getType tensor); simpl in *; congruence).
  rewrite Hclass.
  rewrite adjust_pass_through;
    unfold rankArgAdjuster; simpl; rewrite Htensor; simpl; [| reflexivity].
  rewrite adjust_pass_through;
    unfold dtypeArgAdjuster; simpl; rewrite Htensor; simpl; [| reflexivity].
  rewrite Hint. simpl.
  rewrite adjust_pass_through; simpl; [| exact Hint].
  now rewrite <- !app_assoc.
Qed.

End ScenarioA.

(** The generic adjuster, as it is modelled from the spec, passes a value of
    the desired type through. *)
Lemma TorchType_eqb_refl (type : TorchType) : TorchType_eqb type type = true.
Proof.
  revert type.
  fix IH 1. intros [| | inner | inner | containedTypes | | | | | | |];
    simpl; auto.
  induction containedTypes as [| first others IHothers]; [reflexivity |].
  now rewrite IH, IHothers.
Qed.

Lemma model_adjust_pass_through :
  forall b operand desiredType (baseTransformation : BaseTransformation),
    getType (snd (baseTransformation b operand desiredType)) = desiredType ->
    SpecModel.adjustFunctionArg b operand desiredType baseTransformation
    = (fst (baseTransformation b operand desiredType),
       Success (snd (baseTransformation b operand desiredType))).
Proof.
  intros b operand desiredType baseTransformation Htype.
  unfold SpecModel.adjustFunctionArg.
  destruct (baseTransformation b operand desiredType) as [b1 operand1].
  simpl in *. subst desiredType. now rewrite TorchType_eqb_refl.
Defined.

Lemma builder_tensor_int_witness :
  isaBaseTensorType (getType Examples.tensorOperand) = true /\
  getType Examples.intOperand = IntType /\
  getArgumentTypes Examples.f_dtype = [IntType; IntType; IntType] /\
  dtypeFunctionArgsBuilder SpecModel.adjustFunctionArg Examples.emptyBuilder
    [Examples.tensorOperand; Examples.intOperand] Examples.f_dtype
  = Returned
      ({| inserted :=
            inserted Examples.emptyBuilder ++
            [mkOperation AtenSizeOp [Examples.tensorOperand]
               [ListType IntType] [];
             mkOperation AtenLenTOp
               [OpResult AtenSizeOp (ListType IntType)
                  [Examples.tensorOperand]] [IntType] [];
             mkOperation PrimDtypeOp [Examples.tensorOperand] [IntType] []] |},
       Success
         [OpResult AtenLenTOp IntType
            [OpResult AtenSizeOp (ListType IntType) [Examples.tensorOperand]];
          OpResult PrimDtypeOp IntType [Examples.tensorOperand];
          Examples.intOperand]).
Proof.
  split; [reflexivity | split; [reflexivity | split; [reflexivity |]]].
  apply (builder_tensor_int SpecModel.adjustFunctionArg
           model_adjust_pass_through Examples.emptyBuilder
           Examples.tensorOperand Examples.intOperand Examples.f_dtype);
    reflexivity.
Defined.

(** ** Theorems on the walk *)

Lemma Operation_nested_ind (P : Operation -> Prop)
  (Hop : forall name operands resultTypes body,
      Forall P body -> P (mkOperation name operands resultTypes body)) :
  forall op, P op.
Proof.
  fix IH 1. intros [name operands resultTypes body]. apply Hop.
  induction body as [| nested rest IHrest]; constructor;
    [apply IH | exact IHrest].
Qed.

Section WalkProperties.

Variable State : Type.
Variable callback :
  Operation -> State -> Outcome (Operation * State * WalkResult).

Lemma walk_unfold (name : string) (operands : list Value)
  (resultTypes : list TorchType) (body : list Operation) (st : State) :
  walk callback (mkOperation name operands resultTypes body) st
  = match walkBlock callback body st with
    | AssertionFailure message => AssertionFailure message
    | Returned (body', st', r) =>
        if wasInterrupted r then
          Returned (mkOperation name operands resultTypes body', st',
                    interrupt)
        else callback (mkOperation name operands resultTypes body') st'
    end.
Proof. reflexivity. Qed.

(** The walk of a block that goes through [before] without an interrupt
    goes on with the operations after it. *)
Lemma walkBlock_app (before after : list Operation) :
  forall st before' st1 r,
    walkBlock callback before st = Returned (before', st1, r) ->
    wasInterrupted r = false ->
    walkBlock callback (before ++ after) st
    = match walkBlock callback after st1 with
      | AssertionFailure message => AssertionFailure message
      | Returned (after', st2, r') => Returned (before' ++ after', st2, r')
      end.
Proof.
  induction before as [| nested rest IH]; intros st before' st1 r Hwalk Hr.
  - simpl in Hwalk. injection Hwalk as Hb Hs Hres. subst before' st1 r. simpl.
    now destruct (walkBlock callback after st) as [[[after' st2] r'] |].
  - simpl in Hwalk |- *.
    destruct (walk callback nested st) as [[[nested' st'] r0] |];
      [| discriminate].
    destruct (wasInterrupted r0).
    + injection Hwalk as Hb Hs Hres. subst r. discriminate.
    + destruct (walkBlock callback rest st') as [[[rest' st''] r1] |] eqn:Hrest;
        [| discriminate].
      injection Hwalk as Hb Hs Hres. subst before' st1 r.
      rewrite (IH _ _ _ _ Hrest Hr).
      now destruct (walkBlock callback after st'') as [[[after' st2] r'] |].
Qed.

(** An interrupt of the callback, on any operation that the walk reaches,
    interrupts the whole walk, in the state that the callback left. *)
Lemma walk_interrupted_by (root : Operation) (st0 : State) (op : Operation)
  (st : State) :
  Invoked callback root st0 op st ->
  forall op' st' r,
    callback op st = Returned (op', st', r) ->
    wasInterrupted r = true ->
    exists root', walk callback root st0 = Returned (root', st', interrupt).
Proof.
  induction 1 as [name operands resultTypes body st0 body' st r0 Hbody Hr0
                 | name operands resultTypes before nested after st0 before'
                     st1 r0 op st Hbefore Hr0 _ IH];
    intros op' st' r Hcallback Hr.
  - rewrite walk_unfold, Hbody, Hr0, Hcallback.
    destruct r; try discriminate. now exists op'.
  - destruct (IH _ _ _ Hcallback Hr) as [nested' Hnested].
    rewrite walk_unfold, (walkBlock_app _ (nested :: after) _ _ _ _ Hbefore Hr0).
    simpl. rewrite Hnested. simpl. eauto.
Qed.

(** An interrupted walk was interrupted by the callback, on an operation
    that the walk reached: first for the operations of a block, then for an
    operation. *)
Lemma walkBlock_interrupt_origin (name : string) (operands : list Value)
  (resultTypes : list TorchType) (body : list Operation) :
  Forall (InterruptHasOrigin callback) body ->
  forall before st0 before' st1 r1 body' st2 r2,
    walkBlock callback before st0 = Returned (before', st1, r1) ->
    wasInterrupted r1 = false ->
    walkBlock callback body st1 = Returned (body', st2, r2) ->
    wasInterrupted r2 = true ->
    exists op st op' r',
      Invoked callback
        (mkOperation name operands resultTypes (before ++ body)) st0 op st /\
      callback op st = Returned (op', st2, r') /\
      wasInterrupted r' = true.
Proof.
  induction 1 as [| nested rest Hnested _ IHrest];
    intros before st0 before' st1 r1 body' st2 r2 Hbefore Hr1 Hbody Hr2;
    simpl in Hbody.
  - injection Hbody as Hb Hs Hr. subst r2. discriminate.
  - destruct (walk callback nested st1) as [[[nested' st3] r3] |] eqn:Hn;
      [| discriminate].
    destruct (wasInterrupted r3) eqn:Hr3.
    + injection Hbody as Hb Hs Hr. subst body' st2 r2.
      destruct (Hnested _ _ _ _ Hn Hr3) as (op & st & op' & r' & Hi & Hc & Hr').
      exists op, st, op', r'. split; [| now split].
      eapply invoked_nested; eauto.
    + destruct (walkBlock callback rest st3) as [[[rest' st4] r4] |] eqn:Hrest;
        [| discriminate].
      injection Hbody as Hb Hs Hr. subst body' st2 r2.
      replace (before ++ nested :: rest) with ((before ++ [nested]) ++ rest)
        by now rewrite <- app_assoc.
      apply (IHrest (before ++ [nested]) st0 (before' ++ [nested']) st3 advance
               rest' st4 r4); auto.
      rewrite (walkBlock_app _ [nested] _ _ _ _ Hbefore Hr1). simpl.
      now rewrite Hn, Hr3.
Qed.

Lemma walk_interrupt_origin (root : Operation) :
  InterruptHasOrigin callback root.
Proof.
  induction root as [name operands resultTypes body IHbody]
    using Operation_nested_ind.
  intros st0 root' st' r Hwalk Hr. rewrite walk_unfold in Hwalk.
  destruct (walkBlock callback body st0) as [[[body' st1] r1] |] eqn:Hbody;
    [| discriminate].
  destruct (wasInterrupted r1) eqn:Hr1.
  - injection Hwalk as Hroot Hst Hres. subst root' st' r.
    apply (walkBlock_interrupt_origin name operands resultTypes body IHbody
             [] st0 [] st0 advance body' st1 r1); auto.
  - exists (mkOperation name operands resultTypes body'), st1, root', r.
    split; [| now split].
    eapply invoked_self; eauto.
Qed.

(** In a walk that is not interrupted the callback is invoked on every
    operation that the walk visits, and it does not interrupt. *)
Lemma walkBlock_visits_invoked (name : string) (operands : list Value)
  (resultTypes : list TorchType) (body : list Operation) :
  Forall (VisitsAreInvoked callback) body ->
  forall before st0 before' st1 r1 body' st2 r2,
    walkBlock callback before st0 = Returned (before', st1, r1) ->
    wasInterrupted r1 = false ->
    walkBlock callback body st1 = Returned (body', st2, r2) ->
    wasInterrupted r2 = false ->
    forall visit, In visit (flat_map visited body) ->
    exists op st op' st'' r',
      Invoked callback
        (mkOperation name operands resultTypes (before ++ body)) st0 op st /\
      opName op = opName visit /\
      callback op st = Returned (op', st'', r') /\
      wasInterrupted r' = false.
Proof.
  induction 1 as [| nested rest Hnested _ IHrest];
    intros before st0 before' st1 r1 body' st2 r2 Hbefore Hr1 Hbody Hr2
      visit Hvisit; simpl in Hbody, Hvisit.
  - contradiction.
  - destruct (walk callback nested st1) as [[[nested' st3] r3] |] eqn:Hn;
      [| discriminate].
    destruct (wasInterrupted r3) eqn:Hr3.
    + injection Hbody as Hb Hs Hr. subst r2. discriminate.
    + destruct (walkBlock callback rest st3) as [[[rest' st4] r4] |] eqn:Hrest;
        [| discriminate].
      injection Hbody as Hb Hs Hr. subst body' st2 r2.
      apply in_app_or in Hvisit as [Hvisit | Hvisit].
      * destruct (Hnested _ _ _ _ Hn Hr3 _ Hvisit)
          as (op & st & op' & st'' & r' & Hi & Hname & Hc & Hr').
        exists op, st, op', st'', r'. split; [| now repeat split].
        eapply invoked_nested; eauto.
      * replace (before ++ nested :: rest) with ((before ++ [nested]) ++ rest)
          by now rewrite <- app_assoc.
        apply (IHrest (before ++ [nested]) st0 (before' ++ [nested']) st3
                 advance rest' st4 r4); auto.
        rewrite (walkBlock_app _ [nested] _ _ _ _ Hbefore Hr1). simpl.
        now rewrite Hn, Hr3.
Qed.

Lemma walk_visits_invoked (root : Operation) :
  VisitsAreInvoked callback root.
Proof.
  induction root as [name operands resultTypes body IHbody]
    using Operation_nested_ind.
  intros st0 root' st' r Hwalk Hr visit Hvisit.
  rewrite walk_unfold in Hwalk.
  destruct (walkBlock callback body st0) as [[[body' st1] r1] |] eqn:Hbody;
    [| discriminate].
  destruct (wasInterrupted r1) eqn:Hr1.
  - injection Hwalk as Hroot Hst Hres. subst r. discriminate.
  - simpl in Hvisit. apply in_app_or in Hvisit as [Hvisit | [<- | []]].
    + apply (walkBlock_visits_invoked name operands resultTypes body IHbody
               [] st0 [] st0 advance body' st1 r1); auto.
    + exists (mkOperation name operands resultTypes body'), st1, root', st', r.
      split; [| now repeat split].
      eapply invoked_self; eauto.
Qed.

End WalkProperties.

(** ** Theorems on the needed-function collection *)

Lemma filter_absorb {A : Type} (p q : A -> bool) (l : list A) :
  (forall x, p x = true -> q x = true) ->
  filter p (filter q l) = filter p l.
Proof.
  intro Himp. induction l as [| x l IH]; [reflexivity |]. simpl.
  destruct (q x) eqn:Hq; simpl.
  - now rewrite IH.
  - destruct (p x) eqn:Hp; [| exact IH].
    apply Himp in Hp. congruence.
Qed.

Lemma filter_both {A : Type} (p q pq : A -> bool) (l : list A) :
  (forall x, pq x = q x && p x) ->
  filter pq l = filter p (filter q l).
Proof.
  intro Hboth. induction l as [| x l IH]; [reflexivity |]. simpl.
  rewrite Hboth. destruct (q x); simpl; [| exact IH].
  destruct (p x); now rewrite IH.
Qed.

(** Including names one after the other adds their first occurrences, less
    the names that the collection holds already, at its end. *)
Lemma includeAll_firstOccurrences (names : list string) :
  forall collection,
    includeAll names collection
    = collection ++
      filter (fun n => negb (existsb (String.eqb n) collection))
        (firstOccurrences names).
Proof.
  unfold includeAll.
  induction names as [| name rest IH]; intro collection; simpl.
  - now rewrite app_nil_r.
  - rewrite IH. unfold includeName.
    destruct (existsb (String.eqb name) collection) eqn:Hmem; simpl.
    + f_equal. symmetry. apply filter_absorb.
      intros n Hn. apply negb_true_iff in Hn. apply negb_true_iff.
      destruct (String.eqb_spec name n) as [-> |]; congruence.
    + rewrite <- app_assoc. simpl. do 2 f_equal.
      apply filter_both. intro n.
      rewrite existsb_app. simpl. rewrite orb_false_r, negb_orb.
      rewrite (String.eqb_sym n name). apply andb_comm.
Qed.

Lemma firstOccurrences_In (names : list string) (name : string) :
  In name (firstOccurrences names) <-> In name names.
Proof.
  induction names as [| first rest IH]; simpl; [tauto |].
  rewrite filter_In, IH, negb_true_iff.
  destruct (String.eqb_spec first name) as [-> | Hneq]; intuition congruence.
Qed.

Lemma firstOccurrences_NoDup (names : list string) :
  NoDup (firstOccurrences names).
Proof.
  induction names as [| first rest IH]; simpl; constructor.
  - rewrite filter_In, String.eqb_refl. intros [_ Habs]. discriminate.
  - now apply NoDup_filter.
Qed.

Lemma includeAll_from_empty (names : list string) :
  includeAll names [] = firstOccurrences names.
Proof.
  rewrite includeAll_firstOccurrences. simpl.
  induction (firstOccurrences names) as [| n l IH]; [reflexivity |].
  simpl. now rewrite IH.
Qed.

Lemma matchedNames_app (library : ModuleOp) (ops ops' : list Operation) :
  matchedNames library (ops ++ ops')
  = matchedNames library ops ++ matchedNames library ops'.
Proof. unfold matchedNames. apply flat_map_app. Qed.

Lemma includeAll_app (names names' collection : list string) :
  includeAll (names ++ names') collection
  = includeAll names' (includeAll names collection).
Proof. unfold includeAll. apply fold_left_app. Qed.

(** ** Theorems on the pass *)

Section PassControl.

Variable adjustFunctionArg : ArgAdjuster.
Variable wrapWithCalculateOpIfLibraryFunctionAvailable : WrapUtility.
Variable importLibraryFunctions :
  ModuleOp -> ModuleOp -> list string -> ModuleOp.
Variable getAbstractInterpLibrary : string.
Variable parseSourceString : string -> ModuleOp.

Local Abbreviation library := (parseSourceString getAbstractInterpLibrary).
Local Abbreviation callback :=
  (walkCallback adjustFunctionArg wrapWithCalculateOpIfLibraryFunctionAvailable
     library).
Local Abbreviation pass :=
  (runOnOperation adjustFunctionArg
     wrapWithCalculateOpIfLibraryFunctionAvailable importLibraryFunctions
     getAbstractInterpLibrary parseSourceString).

(** C6. When the wrap of any operation that the walk reaches interrupts,
    the walk is interrupted, the pass signals failure and
    [importLibraryFunctions] is not called; an interrupted walk always comes
    from such a wrap. When the walk completes, [importLibraryFunctions] is
    called once, on the needed functions that the walk collected, and the
    pass does not signal failure. *)
Theorem pass_all_or_nothing (module : ModuleOp) :
  (forall op functionsNeeded op' functionsNeeded' r,
     Invoked callback (moduleOperation module) [] op functionsNeeded ->
     callback op functionsNeeded = Returned (op', functionsNeeded', r) ->
     wasInterrupted r = true ->
     exists root',
       walk callback (moduleOperation module) []
       = Returned (root', functionsNeeded', interrupt) /\
       pass module
       = Returned {| resultModule :=
                       {| moduleOperation := root';
                          moduleFunctions := moduleFunctions module |};
                     signalledFailure := true;
                     importCalls := [] |}) /\
  (forall root' functionsNeeded' r,
     walk callback (moduleOperation module) []
     = Returned (root', functionsNeeded', r) ->
     wasInterrupted r = true ->
     pass module
     = Returned {| resultModule :=
                     {| moduleOperation := root';
                        moduleFunctions := moduleFunctions module |};
                   signalledFailure := true;
                   importCalls := [] |} /\
     exists op functionsNeeded op' r',
       Invoked callback (moduleOperation module) [] op functionsNeeded /\
       callback op functionsNeeded = Returned (op', functionsNeeded', r') /\
       wasInterrupted r' = true) /\
  (forall root' functionsNeeded' r,
     walk callback (moduleOperation module) []
     = Returned (root', functionsNeeded', r) ->
     wasInterrupted r = false ->
     pass module
     = Returned {| resultModule :=
                     importLibraryFunctions
                       {| moduleOperation := root';
                          moduleFunctions := moduleFunctions module |}
                       library functionsNeeded';
                   signalledFailure := false;
                   importCalls := [functionsNeeded'] |}).
Proof.
  split; [| split].
  - intros op functionsNeeded op' functionsNeeded' r Hinvoked Hcallback Hr.
    destruct (walk_interrupted_by _ _ _ _ _ _ Hinvoked _ _ _ Hcallback Hr)
      as [root' Hwalk].
    exists root'. split; [exact Hwalk |].
    unfold runOnOperation. now rewrite Hwalk.
  - intros root' functionsNeeded' r Hwalk Hr. split.
    + unfold runOnOperation. now rewrite Hwalk, Hr.
    + exact (walk_interrupt_origin _ _ _ _ _ _ _ Hwalk Hr).
  - intros root' functionsNeeded' r Hwalk Hr.
    unfold runOnOperation. now rewrite Hwalk, Hr.
Qed.

End PassControl.

Section NeededFunctions.

Variable adjustFunctionArg : ArgAdjuster.
Variable wrapWithCalculateOpIfLibraryFunctionAvailable : WrapUtility.
Variable importLibraryFunctions :
  ModuleOp -> ModuleOp -> list string -> ModuleOp.
Variable getAbstractInterpLibrary : string.
Variable parseSourceString : string -> ModuleOp.

Local Abbreviation library := (parseSourceString getAbstractInterpLibrary).
Local Abbreviation callback :=
  (walkCallback adjustFunctionArg wrapWithCalculateOpIfLibraryFunctionAvailable
     library).
Local Abbreviation pass :=
  (runOnOperation adjustFunctionArg
     wrapWithCalculateOpIfLibraryFunctionAvailable importLibraryFunctions
     getAbstractInterpLibrary parseSourceString).

(** The contract of the wrap utility: an operation without a matching
    library function is left untouched and the walk continues. *)
Hypothesis wrap_untouched :
  forall op lib kind functionsNeeded argsBuilder,
    lookupLibraryFunction lib kind (opName op) = None ->
    wrapWithCalculateOpIfLibraryFunctionAvailable op lib kind functionsNeeded
      argsBuilder
    = Returned (op, functionsNeeded, advance).

(** The contract of the wrap utility: on success, the name of the library
    function that it used is included in the needed functions. *)
Hypothesis wrap_includes :
  forall op lib kind functionsNeeded argsBuilder libFunc op' functionsNeeded' r,
    lookupLibraryFunction lib kind (opName op) = Some libFunc ->
    wrapWithCalculateOpIfLibraryFunctionAvailable op lib kind functionsNeeded
      argsBuilder
    = Returned (op', functionsNeeded', r) ->
    wasInterrupted r = false ->
    functionsNeeded' = includeName (sym_name libFunc) functionsNeeded.

(** The contract of the import utility: without names nothing is spliced
    in. *)
Hypothesis import_nothing :
  forall module lib, importLibraryFunctions module lib [] = module.

(** What the callback does to the needed functions when it does not
    interrupt. *)
Lemma callback_collects (op : Operation) (functionsNeeded : list string)
  (op' : Operation) (functionsNeeded' : list string) (r : WalkResult) :
  callback op functionsNeeded = Returned (op', functionsNeeded', r) ->
  wasInterrupted r = false ->
  functionsNeeded' = includeAll (matchedNames library [op]) functionsNeeded.
Proof.
  unfold walkCallback, matchedNames. intros Hcallback Hr. simpl.
  destruct (lookupLibraryFunction library DtypeFunction (opName op))
    as [libFunc |] eqn:Hlookup; simpl.
  - eapply wrap_includes; eassumption.
  - rewrite (wrap_untouched _ _ _ _ _ Hlookup) in Hcallback.
    congruence.
Qed.

(** A walk that is not interrupted leaves the needed functions with the
    names matched by the visited operations included, in the order of the
    visits. *)
Lemma walkBlock_collects (body : list Operation) :
  Forall (fun nested =>
            forall functionsNeeded nested' functionsNeeded' r,
              walk callback nested functionsNeeded
              = Returned (nested', functionsNeeded', r) ->
              wasInterrupted r = false ->
              functionsNeeded'
              = includeAll (matchedNames library (visited nested))
                  functionsNeeded) body ->
  forall functionsNeeded body' functionsNeeded' r,
    walkBlock callback body functionsNeeded
    = Returned (body', functionsNeeded', r) ->
    wasInterrupted r = false ->
    functionsNeeded'
    = includeAll (matchedNames library (flat_map visited body)) functionsNeeded.
Proof.
  induction 1 as [| nested rest Hnested _ IHrest];
    intros functionsNeeded body' functionsNeeded' r Hbody Hr; simpl in Hbody.
  - now injection Hbody as _ <- _.
  - destruct (walk callback nested functionsNeeded)
      as [[[nested' needed1] r1] |] eqn:Hn; [| discriminate].
    destruct (wasInterrupted r1) eqn:Hr1.
    + injection Hbody as _ _ Hres. subst r. discriminate.
    + destruct (walkBlock callback rest needed1)
        as [[[rest' needed2] r2] |] eqn:Hrest; [| discriminate].
      injection Hbody as _ Hneeded Hres. subst functionsNeeded' r.
      simpl. rewrite matchedNames_app, includeAll_app.
      rewrite <- (Hnested _ _ _ _ Hn Hr1).
      exact (IHrest _ _ _ _ Hrest Hr).
Qed.

Lemma walk_collects (root : Operation) :
  forall functionsNeeded root' functionsNeeded' r,
    walk callback root functionsNeeded
    = Returned (root', functionsNeeded', r) ->
    wasInterrupted r = false ->
    functionsNeeded'
    = includeAll (matchedNames library (visited root)) functionsNeeded.
Proof.
  induction root as [name operands resultTypes body IHbody]
    using Operation_nested_ind.
  intros functionsNeeded root' functionsNeeded' r Hwalk Hr.
  rewrite walk_unfold in Hwalk.
  destruct (walkBlock callback body functionsNeeded)
    as [[[body' needed1] r1] |] eqn:Hbody; [| discriminate].
  destruct (wasInterrupted r1) eqn:Hr1.
  - injection Hwalk as _ _ Hres. subst r. discriminate.
  - simpl. rewrite matchedNames_app, includeAll_app.
    rewrite <- (walkBlock_collects body IHbody _ _ _ _ Hbody Hr1).
    exact (callback_collects _ _ _ _ _ Hwalk Hr).
Qed.

(** C8. Under the contract of the wrap utility, the needed functions that
    a walk without interrupt leaves hold no name twice; every name in them
    is the name of the library function matched by an operation whose wrap
    was invoked during the walk and did not interrupt; and the names stand
    in the order in which the walk first met them. *)
Theorem needed_functions (module : ModuleOp) (root' : Operation)
  (functionsNeeded : list string) (r : WalkResult)
  (Hwalk : walk callback (moduleOperation module) []
           = Returned (root', functionsNeeded, r))
  (Hcomplete : wasInterrupted r = false) :
  NoDup functionsNeeded /\
  (forall name, In name functionsNeeded ->
     exists op needed op' needed' r' libFunc,
       Invoked callback (moduleOperation module) [] op needed /\
       callback op needed = Returned (op', needed', r') /\
       wasInterrupted r' = false /\
       lookupLibraryFunction library DtypeFunction (opName op) = Some libFunc /\
       sym_name libFunc = name) /\
  functionsNeeded
  = firstOccurrences
      (matchedNames library (visited (moduleOperation module))).
Proof.
  assert (Hneeded : functionsNeeded
                    = firstOccurrences
                        (matchedNames library
                           (visited (moduleOperation module)))).
  { rewrite <- includeAll_from_empty. exact (walk_collects _ _ _ _ _ Hwalk Hcomplete). }
  split; [rewrite Hneeded; apply firstOccurrences_NoDup | split; [| exact Hneeded]].
  intros name Hin. rewrite Hneeded in Hin.
  apply (proj1 (firstOccurrences_In _ _)) in Hin. unfold matchedNames in Hin.
  apply in_flat_map in Hin as (visit & Hvisit & Hname).
  destruct (lookupLibraryFunction library DtypeFunction (opName visit))
    as [libFunc |] eqn:Hlookup; [| contradiction].
  destruct Hname as [Hname | []].
  destruct (walk_visits_invoked _ _ _ _ _ _ _ Hwalk Hcomplete _ Hvisit)
    as (op & needed & op' & needed' & r' & Hinvoked & Hop & Hcallback & Hr').
  exists op, needed, op', needed', r', libFunc.
  repeat split; try assumption. now rewrite Hop.
Qed.

(** No operation that the walk visits has a matching library function:
    the walk leaves everything as it is. *)
Lemma walkBlock_untouched (body : list Operation) :
  Forall (fun nested =>
            (forall op, In op (visited nested) ->
                        lookupLibraryFunction library DtypeFunction (opName op)
                        = None) ->
            forall functionsNeeded,
              walk callback nested functionsNeeded
              = Returned (nested, functionsNeeded, advance)) body ->
  (forall op, In op (flat_map visited body) ->
              lookupLibraryFunction library DtypeFunction (opName op) = None) ->
  forall functionsNeeded,
    walkBlock callback body functionsNeeded
    = Returned (body, functionsNeeded, advance).
Proof.
  induction 1 as [| nested rest Hnested _ IHrest];
    intros Hnone functionsNeeded; simpl; [reflexivity |].
  rewrite Hnested; simpl.
  - rewrite IHrest; [reflexivity |].
    intros op Hop. apply Hnone. simpl. apply in_or_app. now right.
  - intros op Hop. apply Hnone. simpl. apply in_or_app. now left.
Qed.

Lemma walk_untouched (root : Operation) :
  (forall op, In op (visited root) ->
              lookupLibraryFunction library DtypeFunction (opName op) = None) ->
  forall functionsNeeded,
    walk callback root functionsNeeded
    = Returned (root, functionsNeeded, advance).
Proof.
  induction root as [name operands resultTypes body IHbody]
    using Operation_nested_ind.
  intros Hnone functionsNeeded. rewrite walk_unfold.
  rewrite (walkBlock_untouched body IHbody).
  - simpl. unfold walkCallback. apply wrap_untouched.
    apply (Hnone (mkOperation name operands resultTypes body)).
    simpl. apply in_or_app. right. now left.
  - intros op Hop. apply Hnone. simpl. apply in_or_app. now left.
Qed.

(** C9, as the code has it. On a program in which no operation that the
    walk visits, inside the regions of calculate operations as well as
    outside them, has a matching dtype function in the library, the pass
    wraps nothing: the walk completes, the needed functions stay empty,
    [importLibraryFunctions] is called on the empty list, and the module
    that the pass leaves is the module it was given. *)
Theorem pass_nothing_to_wrap (module : ModuleOp)
  (Hnone : forall op, In op (visited (moduleOperation module)) ->
             lookupLibraryFunction library DtypeFunction (opName op) = None) :
  walk callback (moduleOperation module) []
  = Returned (moduleOperation module, [], advance) /\
  pass module
  = Returned {| resultModule := module;
                signalledFailure := false;
                importCalls := [[]] |}.
Proof.
  pose proof (walk_untouched _ Hnone []) as Hwalk.
  split; [exact Hwalk |].
  unfold runOnOperation. rewrite Hwalk. simpl.
  rewrite import_nothing. now destruct module.
Qed.

End NeededFunctions.

(** ** The collaborators of the model meet the contracts *)

Lemma model_wrap_untouched :
  forall op lib kind functionsNeeded argsBuilder,
    lookupLibraryFunction lib kind (opName op) = None ->
    SpecModel.wrapWithCalculateOpIfLibraryFunctionAvailable op lib kind
      functionsNeeded argsBuilder
    = Returned (op, functionsNeeded, advance).
Proof.
  intros op lib kind functionsNeeded argsBuilder Hlookup.
  unfold SpecModel.wrapWithCalculateOpIfLibraryFunctionAvailable.
  now rewrite Hlookup.
Defined.

Lemma model_wrap_includes :
  forall op lib kind functionsNeeded argsBuilder libFunc op' functionsNeeded' r,
    lookupLibraryFunction lib kind (opName op) = Some libFunc ->
    SpecModel.wrapWithCalculateOpIfLibraryFunctionAvailable op lib kind
      functionsNeeded argsBuilder
    = Returned (op', functionsNeeded', r) ->
    wasInterrupted r = false ->
    functionsNeeded' = includeName (sym_name libFunc) functionsNeeded.
Proof.
  intros op lib kind functionsNeeded argsBuilder libFunc op' functionsNeeded' r
    Hlookup Hwrap Hr.
  unfold SpecModel.wrapWithCalculateOpIfLibraryFunctionAvailable in Hwrap.
  rewrite Hlookup in Hwrap.
  destruct (argsBuilder {| inserted := [] |} (getOperands op) libFunc)
    as [[b [libFuncArgs |]] | message]; [| | discriminate].
  - now injection Hwrap as _ <- _.
  - injection Hwrap as _ _ Hres. subst r. discriminate.
Defined.

Lemma model_transitiveNames_nil (fuel : nat) (lib : ModuleOp) :
  SpecModel.transitiveNames fuel lib [] = [].
Proof. induction fuel as [| fuel IH]; [reflexivity | exact IH]. Defined.

Lemma model_import_nothing :
  forall module lib, SpecModel.importLibraryFunctions module lib [] = module.
Proof.
  intros [root functions] lib. unfold SpecModel.importLibraryFunctions.
  rewrite model_transitiveNames_nil. simpl. f_equal.
  induction (moduleFunctions lib) as [| f fs IH]; simpl.
  - apply app_nil_r.
  - exact IH.
Defined.

(** ** The pass on concrete programs *)

Lemma pass_all_or_nothing_witness :
  exists root',
    walk Examples.callback
      (moduleOperation
         (Examples.program [Examples.g_op; Examples.h_op; Examples.f_op])) []
    = Returned (root', ["g_dtype"], interrupt) /\
    Examples.pass
      (Examples.program [Examples.g_op; Examples.h_op; Examples.f_op])
    = Returned {| resultModule :=
                    {| moduleOperation := root'; moduleFunctions := [] |};
                  signalledFailure := true;
                  importCalls := [] |}.
Proof.
  assert (Hwalk : exists root',
             walk Examples.callback
               (moduleOperation
                  (Examples.program
                     [Examples.g_op; Examples.h_op; Examples.f_op])) []
             = Returned (root', ["g_dtype"], interrupt))
    by (eexists; vm_compute; reflexivity).
  destruct Hwalk as [root' Hwalk]. exists root'. split; [exact Hwalk |].
  exact (proj1 (proj1 (proj2
           (pass_all_or_nothing SpecModel.adjustFunctionArg
              SpecModel.wrapWithCalculateOpIfLibraryFunctionAvailable
              SpecModel.importLibraryFunctions Examples.libraryText
              Examples.parse
              (Examples.program [Examples.g_op; Examples.h_op; Examples.f_op])))
           root' ["g_dtype"] interrupt Hwalk eq_refl)).
Defined.

Lemma needed_functions_witness :
  exists root',
    walk Examples.callback
      (moduleOperation
         (Examples.program [Examples.g_op; Examples.f_op; Examples.g_op])) []
    = Returned (root', ["g_dtype"; "f_dtype"], advance) /\
    wasInterrupted advance = false /\
    NoDup ["g_dtype"; "f_dtype"] /\
    (forall name, In name ["g_dtype"; "f_dtype"] ->
       exists op needed op' needed' r' libFunc,
         Invoked Examples.callback
           (moduleOperation
              (Examples.program [Examples.g_op; Examples.f_op; Examples.g_op]))
           [] op needed /\
         Examples.callback op needed = Returned (op', needed', r') /\
         wasInterrupted r' = false /\
         lookupLibraryFunction (Examples.parse Examples.libraryText)
           DtypeFunction (opName op) = Some libFunc /\
         sym_name libFunc = name) /\
    ["g_dtype"; "f_dtype"]
    = firstOccurrences
        (matchedNames (Examples.parse Examples.libraryText)
           (visited
              (moduleOperation
                 (Examples.program
                    [Examples.g_op; Examples.f_op; Examples.g_op])))).
Proof.
  assert (Hwalk : exists root',
             walk Examples.callback
               (moduleOperation
                  (Examples.program
                     [Examples.g_op; Examples.f_op; Examples.g_op])) []
             = Returned (root', ["g_dtype"; "f_dtype"], advance))
    by (eexists; vm_compute; reflexivity).
  destruct Hwalk as [root' Hwalk]. exists root'.
  split; [exact Hwalk | split; [reflexivity |]].
  exact (needed_functions SpecModel.adjustFunctionArg
           SpecModel.wrapWithCalculateOpIfLibraryFunctionAvailable
           Examples.libraryText Examples.parse
           model_wrap_untouched model_wrap_includes
           (Examples.program [Examples.g_op; Examples.f_op; Examples.g_op])
           root' ["g_dtype"; "f_dtype"] advance Hwalk eq_refl).
Defined.

Lemma pass_nothing_to_wrap_witness :
  (forall op,
     In op (visited (moduleOperation (Examples.program [Examples.k_op]))) ->
     lookupLibraryFunction (Examples.parse Examples.libraryText) DtypeFunction
       (opName op) = None) /\
  walk Examples.callback (moduleOperation (Examples.program [Examples.k_op])) []
  = Returned (moduleOperation (Examples.program [Examples.k_op]), [], advance) /\
  Examples.pass (Examples.program [Examples.k_op])
  = Returned {| resultModule := Examples.program [Examples.k_op];
                signalledFailure := false;
                importCalls := [[]] |}.
Proof.
  assert (Hnone : forall op,
             In op (visited
                      (moduleOperation (Examples.program [Examples.k_op]))) ->
             lookupLibraryFunction (Examples.parse Examples.libraryText)
               DtypeFunction (opName op) = None)
    by (intros op [<- | [<- | [<- | []]]]; reflexivity).
  split; [exact Hnone |].
  exact (pass_nothing_to_wrap SpecModel.adjustFunctionArg
           SpecModel.wrapWithCalculateOpIfLibraryFunctionAvailable
           SpecModel.importLibraryFunctions Examples.libraryText Examples.parse
           model_wrap_untouched model_import_nothing
           (Examples.program [Examples.k_op]) Hnone).
Defined.

(** C9 fails as stated. In the program that one run of the pass leaves, no
    bare operation has a matching dtype function: the one operation that
    matches stands in the region of its calculate operation. The walk of a
    second run visits it there and wraps it again: the needed functions are
    not empty and the program is not the same afterwards. *)
Lemma pass_rewrites_again_counterexample :
  Examples.pass (Examples.program [Examples.g_op])
  = Returned {| resultModule := Examples.rewrittenOnce;
                signalledFailure := false;
                importCalls := [["g_dtype"]] |} /\
  (forall op,
     In op (bareOperations (moduleOperation Examples.rewrittenOnce)) ->
     lookupLibraryFunction (Examples.parse Examples.libraryText) DtypeFunction
       (opName op) = None) /\
  Examples.pass Examples.rewrittenOnce
  = Returned {| resultModule := Examples.rewrittenTwice;
                signalledFailure := false;
                importCalls := [["g_dtype"]] |} /\
  Examples.rewrittenTwice <> Examples.rewrittenOnce.
Proof.
  split; [reflexivity | split; [| split; [reflexivity | discriminate]]].
  intros op [<- | [<- | []]]; reflexivity.
Qed.

(** ** Further properties of the classifier *)

(** The classifier answers [true] exactly for the types that leave a base
    tensor type once the [Optional] and [List] wrappers are peeled off, at
    any depth, and [false] exactly for the types that leave neither a base
    tensor type nor a tuple type. *)
Theorem classifier_characterisation (type : TorchType) :
  (isTensorTypeOrWrappedTensorType type = Returned true <->
   isaBaseTensorType (unwrappedType type) = true) /\
  (isTensorTypeOrWrappedTensorType type = Returned false <->
   isaBaseTensorType (unwrappedType type) = false /\
   isaTupleType (unwrappedType type) = false).
Proof.
  induction type; simpl; try exact IHtype;
    (split; split; [intro | intro | intro | intros []]);
    try split; congruence.
Qed.

(** ** Further properties of the argument builder *)

Section ArgsBuilderFurther.

Variable adjustFunctionArg : ArgAdjuster.

Local Abbreviation loop := (dtypeFunctionArgsLoop adjustFunctionArg).
Local Abbreviation builder := (dtypeFunctionArgsBuilder adjustFunctionArg).

(** The loop composes: over the operands [prefix ++ suffix] it is the loop
    over [prefix] followed, from the builder, the cursor and the arguments
    that it left, by the loop over [suffix]; a failure or a tripped
    assertion in [prefix] is the outcome of the whole, and [suffix] is not
    looked at. *)
Theorem loop_composes (prefix suffix : list Value) :
  forall b desiredTypes acc,
    loop b (prefix ++ suffix) desiredTypes acc
    = match loop b prefix desiredTypes acc with
      | Returned (b', Success (remaining, args)) =>
          loop b' suffix remaining args
      | Returned (b', Failure) => Returned (b', Failure)
      | AssertionFailure message => AssertionFailure message
      end.
Proof.
  induction prefix as [| operand rest IH]; intros b desiredTypes acc; simpl;
    [reflexivity |].
  destruct desiredTypes as [| desiredType dropped]; [reflexivity |].
  destruct (isTensorTypeOrWrappedTensorType (getType operand))
    as [[|] | message]; [| | reflexivity].
  - destruct dropped as [| desiredType' dropped']; [reflexivity |].
    destruct (adjustFunctionArg b operand desiredType rankArgAdjuster)
      as [b1 [rankArg |]]; [| reflexivity].
    destruct (adjustFunctionArg b1 operand desiredType' dtypeArgAdjuster)
      as [b2 [dtypeArg |]]; [apply IH | reflexivity].
  - destruct (adjustFunctionArg b operand desiredType noTransformation)
      as [b1 [otherArg |]]; [apply IH | reflexivity].
Qed.

(** Parameters after the ones that the cursor reaches are not looked at. *)
Lemma loop_extra_parameters (operands : list Value) (extra : list TorchType) :
  forall b desiredTypes acc b' result,
    loop b operands desiredTypes acc = Returned (b', result) ->
    loop b operands (desiredTypes ++ extra) acc
    = Returned (b', match result with
                    | Success (remaining, args) =>
                        Success (remaining ++ extra, args)
                    | Failure => Failure
                    end).
Proof.
  induction operands as [| operand rest IH];
    intros b desiredTypes acc b' result Hloop; simpl in *.
  - now injection Hloop as <- <-.
  - destruct desiredTypes as [| desiredType dropped]; [discriminate |]. simpl.
    destruct (isTensorTypeOrWrappedTensorType (getType operand))
      as [[|] | message]; [| | discriminate].
    + destruct dropped as [| desiredType' dropped']; [discriminate |]. simpl.
      destruct (adjustFunctionArg b operand desiredType rankArgAdjuster)
        as [b1 [rankArg |]]; [| now injection Hloop as <- <-].
      destruct (adjustFunctionArg b1 operand desiredType' dtypeArgAdjuster)
        as [b2 [dtypeArg |]]; [now apply IH | now injection Hloop as <- <-].
    + destruct (adjustFunctionArg b operand desiredType noTransformation)
        as [b1 [otherArg |]]; [now apply IH | now injection Hloop as <- <-].
Qed.

(** When the builder returns, with success or with the failure value, for a
    dtype function, it returns the same for every dtype function that has
    further parameters after the same ones: excess parameters change
    nothing and are not reported. *)
Theorem builder_ignores_extra_parameters (b : OpBuilder)
  (operands : list Value) (dtypeFunc dtypeFunc' : FuncOp)
  (extra : list TorchType) (result : OpBuilder * FailureOr (list Value))
  (Hextended : getArgumentTypes dtypeFunc'
               = getArgumentTypes dtypeFunc ++ extra)
  (Hreturned : builder b operands dtypeFunc = Returned result) :
  builder b operands dtypeFunc' = Returned result.
Proof.
  unfold dtypeFunctionArgsBuilder in *. rewrite Hextended.
  destruct (dtypeFunctionArgsLoop adjustFunctionArg b operands
              (getArgumentTypes dtypeFunc) [])
    as [[b' loopResult] | message] eqn:Hloop; [| discriminate].
  rewrite (loop_extra_parameters operands extra _ _ _ _ _ Hloop).
  destruct loopResult as [[remaining args] |]; exact Hreturned.
Qed.

(** Which assertion is tripped. When the operands before went through and
    no parameter is left, the builder trips the assertion on the number of
    arguments for any further operand, whatever its type: the classifier is
    not reached. When a parameter is left and the type of the operand holds
    a tuple type, the builder trips the assertion of the classifier,
    whatever the adjuster and the parameters are. *)
Theorem builder_assertion_order (b : OpBuilder) (prefix : list Value)
  (operand : Value) (rest : list Value) (dtypeFunc : FuncOp)
  (b' : OpBuilder) (remaining : list TorchType) (args : list Value)
  (Hprefix : loop b prefix (getArgumentTypes dtypeFunc) []
             = Returned (b', Success (remaining, args))) :
  (remaining = [] ->
   builder b (prefix ++ operand :: rest) dtypeFunc
   = AssertionFailure oneArgumentAssertion) /\
  (remaining <> [] ->
   isaTupleType (unwrappedType (getType operand)) = true ->
   builder b (prefix ++ operand :: rest) dtypeFunc
   = AssertionFailure tupleAssertion).
Proof.
  unfold dtypeFunctionArgsBuilder. erewrite loop_app by exact Hprefix.
  split.
  - intros ->. reflexivity.
  - intros Hleft Htuple. destruct remaining as [| slot left]; [congruence |].
    simpl. rewrite classifier_unwrapped.
    destruct (unwrappedType (getType operand)); simpl in *;
      try discriminate. reflexivity.
Qed.

(** A failure of the adjuster ends the builder at once. When the operands
    before went through and the adjuster fails for the next operand (for
    its one value, for its rank, or for its dtype after the rank went
    through), the builder returns the failure value together with the
    builder as the failing call left it: what was inserted stays inserted,
    no argument list is returned, and the operands after are not looked
    at. *)
Theorem builder_failure_is_immediate (b : OpBuilder) (prefix : list Value)
  (operand : Value) (rest : list Value) (dtypeFunc : FuncOp)
  (b' : OpBuilder) (remaining : list TorchType) (args : list Value)
  (Hprefix : loop b prefix (getArgumentTypes dtypeFunc) []
             = Returned (b', Success (remaining, args))) :
  (forall slot left b1,
     remaining = slot :: left ->
     isTensorTypeOrWrappedTensorType (getType operand) = Returned false ->
     adjustFunctionArg b' operand slot noTransformation = (b1, Failure) ->
     builder b (prefix ++ operand :: rest) dtypeFunc
     = Returned (b1, Failure)) /\
  (forall slot slot' left b1,
     remaining = slot :: slot' :: left ->
     isTensorTypeOrWrappedTensorType (getType operand) = Returned true ->
     adjustFunctionArg b' operand slot rankArgAdjuster = (b1, Failure) ->
     builder b (prefix ++ operand :: rest) dtypeFunc
     = Returned (b1, Failure)) /\
  (forall slot slot' left b1 rankArg b2,
     remaining = slot :: slot' :: left ->
     isTensorTypeOrWrappedTensorType (getType operand) = Returned true ->
     adjustFunctionArg b' operand slot rankArgAdjuster
     = (b1, Success rankArg) ->
     adjustFunctionArg b1 operand slot' dtypeArgAdjuster = (b2, Failure) ->
     builder b (prefix ++ operand :: rest) dtypeFunc
     = Returned (b2, Failure)).
Proof.
  unfold dtypeFunctionArgsBuilder. erewrite loop_app by exact Hprefix.
  split; [| split].
  - intros slot left b1 -> Hclass Hother. simpl.
    now rewrite Hclass, Hother.
  - intros slot slot' left b1 -> Hclass Hrank. simpl.
    now rewrite Hclass, Hrank.
  - intros slot slot' left b1 rankArg b2 -> Hclass Hrank Hdtype. simpl.
    now rewrite Hclass, Hrank, Hdtype.
Qed.

End ArgsBuilderFurther.

Lemma slotsNeeded_cons (operand : Value) (rest : list Value) :
  slotsNeeded (operand :: rest) = operandSlots operand + slotsNeeded rest.
Proof. reflexivity. Qed.

Section TotalAdjuster.

Variable adjustFunctionArg : ArgAdjuster.

Local Abbreviation loop := (dtypeFunctionArgsLoop adjustFunctionArg).
Local Abbreviation builder := (dtypeFunctionArgsBuilder adjustFunctionArg).

(** The adjuster has a value for every operand and every type. *)
Hypothesis adjust_never_fails :
  forall b operand desiredType (baseTransformation : BaseTransformation),
    snd (adjustFunctionArg b operand desiredType baseTransformation)
    <> Failure.

Lemma loop_never_fails (operands : list Value) :
  forall b desiredTypes acc b',
    loop b operands desiredTypes acc <> Returned (b', Failure).
Proof.
  induction operands as [| operand rest IH]; intros b desiredTypes acc b';
    simpl; [discriminate |].
  destruct desiredTypes as [| desiredType dropped]; [discriminate |].
  destruct (isTensorTypeOrWrappedTensorType (getType operand))
    as [[|] | message]; [| | discriminate].
  - destruct dropped as [| desiredType' dropped']; [discriminate |].
    pose proof (adjust_never_fails b operand desiredType rankArgAdjuster)
      as Hrank.
    destruct (adjustFunctionArg b operand desiredType rankArgAdjuster)
      as [b1 [rankArg |]]; [| now elim Hrank].
    pose proof (adjust_never_fails b1 operand desiredType' dtypeArgAdjuster)
      as Hdtype.
    destruct (adjustFunctionArg b1 operand desiredType' dtypeArgAdjuster)
      as [b2 [dtypeArg |]]; [apply IH | now elim Hdtype].
  - pose proof (adjust_never_fails b operand desiredType noTransformation)
      as Hother.
    destruct (adjustFunctionArg b operand desiredType noTransformation)
      as [b1 [otherArg |]]; [apply IH | now elim Hother].
Qed.

Lemma loop_enough_parameters (operands : list Value) :
  Forall (fun operand => isaTupleType (unwrappedType (getType operand)) = false)
    operands ->
  forall b desiredTypes acc,
    slotsNeeded operands <= List.length desiredTypes ->
    exists b' remaining args,
      loop b operands desiredTypes acc
      = Returned (b', Success (remaining, args)).
Proof.
  induction 1 as [| operand rest Hoperand _ IH]; intros b desiredTypes acc Hle;
    [simpl; eauto |].
  rewrite slotsNeeded_cons in Hle. unfold operandSlots in Hle.
  destruct (classifier_returns _ Hoperand) as [result Hclass].
  rewrite Hclass in Hle. simpl. rewrite Hclass.
  destruct desiredTypes as [| desiredType dropped]; cbn [List.length] in Hle;
    [destruct result; lia |].
  destruct result.
  - destruct dropped as [| desiredType' dropped']; cbn [List.length] in Hle;
      [lia |].
    pose proof (adjust_never_fails b operand desiredType rankArgAdjuster)
      as Hrank.
    destruct (adjustFunctionArg b operand desiredType rankArgAdjuster)
      as [b1 [rankArg |]]; [| now elim Hrank].
    pose proof (adjust_never_fails b1 operand desiredType' dtypeArgAdjuster)
      as Hdtype.
    destruct (adjustFunctionArg b1 operand desiredType' dtypeArgAdjuster)
      as [b2 [dtypeArg |]]; [| now elim Hdtype].
    apply IH. lia.
  - pose proof (adjust_never_fails b operand desiredType noTransformation)
      as Hother.
    destruct (adjustFunctionArg b operand desiredType noTransformation)
      as [b1 [otherArg |]]; [| now elim Hother].
    apply IH. lia.
Qed.

(** With an adjuster that never fails the builder never returns the
    failure value; and when no type of an operand holds a tuple type, it
    succeeds exactly when the dtype function has at least two parameters
    for each operand that is a tensor or a wrapped tensor and one for each
    other operand. With fewer parameters it trips an assertion. *)
Theorem builder_with_total_adjuster (b : OpBuilder) (operands : list Value)
  (dtypeFunc : FuncOp) :
  (forall b', builder b operands dtypeFunc <> Returned (b', Failure)) /\
  (Forall (fun operand =>
             isaTupleType (unwrappedType (getType operand)) = false)
     operands ->
   ((exists b' args,
       builder b operands dtypeFunc = Returned (b', Success args)) <->
    slotsNeeded operands <= List.length (getArgumentTypes dtypeFunc)) /\
   (List.length (getArgumentTypes dtypeFunc) < slotsNeeded operands ->
    exists message, builder b operands dtypeFunc = AssertionFailure message)).
Proof.
  assert (Hno_failure :
            forall b', builder b operands dtypeFunc <> Returned (b', Failure)).
  { intros b'. unfold dtypeFunctionArgsBuilder.
    pose proof (loop_never_fails operands b (getArgumentTypes dtypeFunc) [])
      as Hloop.
    destruct (dtypeFunctionArgsLoop adjustFunctionArg b operands
                (getArgumentTypes dtypeFunc) [])
      as [[b1 [[remaining args] |]] | message]; try discriminate.
    intros [= Hb]. now apply (Hloop b1). }
  assert (Hsuccess :
            (exists b' args,
                builder b operands dtypeFunc = Returned (b', Success args)) ->
            slotsNeeded operands <= List.length (getArgumentTypes dtypeFunc)).
  { intros (b' & args & Hbuilder).
    apply builder_success in Hbuilder as [remaining Hloop].
    apply loop_parts in Hloop as (parts & Hparts & _ & Hslots).
    destruct (parts_count adjustFunctionArg operands parts Hparts)
      as [_ Htaken].
    rewrite Hslots, length_app. lia. }
  split; [exact Hno_failure |].
  intro Hfree. split; [split; [exact Hsuccess |] |].
  - intro Hle.
    destruct (loop_enough_parameters operands Hfree b
                (getArgumentTypes dtypeFunc) [] Hle)
      as (b' & remaining & args & Hloop).
    exists b', args. apply builder_success. now exists remaining.
  - intro Hlt.
    destruct (builder b operands dtypeFunc) as [[b' [args |]] | message] eqn:Hb.
    + assert (slotsNeeded operands
              <= List.length (getArgumentTypes dtypeFunc))
        by (apply Hsuccess; eauto).
      lia.
    + now elim (Hno_failure b').
    + now exists message.
Qed.

End TotalAdjuster.

Section PassThroughAdjuster.

Variable adjustFunctionArg : ArgAdjuster.

Local Abbreviation loop := (dtypeFunctionArgsLoop adjustFunctionArg).
Local Abbreviation builder := (dtypeFunctionArgsBuilder adjustFunctionArg).

(** The adjuster applies the base transformation first and lets a value of
    the desired type through. *)
Hypothesis adjust_lets_through :
  forall b operand desiredType (baseTransformation : BaseTransformation),
    getType (snd (baseTransformation b operand desiredType)) = desiredType ->
    adjustFunctionArg b operand desiredType baseTransformation
    = (fst (baseTransformation b operand desiredType),
       Success (snd (baseTransformation b operand desiredType))).

Lemma loop_surrogates (operands : list Value) (extra : list TorchType) :
  Forall (fun operand => isaBaseTensorType (getType operand) = true \/
                         getType operand = IntType) operands ->
  forall b acc,
    loop b operands (repeat IntType (slotsNeeded operands) ++ extra) acc
    = Returned ({| inserted := inserted b ++ flat_map surrogateOps operands |},
                Success (extra, acc ++ flat_map surrogates operands)).
Proof.
  induction 1 as [| operand rest Hoperand _ IH]; intros b acc.
  - simpl. rewrite !app_nil_r. now destruct b.
  - rewrite slotsNeeded_cons.
    change (flat_map surrogateOps (operand :: rest))
      with (surrogateOps operand ++ flat_map surrogateOps rest).
    change (flat_map surrogates (operand :: rest))
      with (surrogates operand ++ flat_map surrogates rest).
    set (slots := slotsNeeded rest) in *.
    set (values := flat_map surrogates rest) in *.
    set (ops := flat_map surrogateOps rest) in *.
    clearbody slots values ops.
    unfold operandSlots, surrogates, surrogateOps.
    destruct (isaBaseTensorType (getType operand)) eqn:Hbase.
    + assert (Hclass : isTensorTypeOrWrappedTensorType (getType operand)
                       = Returned true)
        by (destruct (getType operand); simpl in *; congruence).
      rewrite Hclass. simpl. rewrite Hclass.
      rewrite adjust_lets_through;
        unfold rankArgAdjuster; simpl; rewrite Hbase; simpl; [| reflexivity].
      rewrite adjust_lets_through;
        unfold dtypeArgAdjuster; simpl; rewrite Hbase; simpl; [| reflexivity].
      rewrite IH. simpl. now rewrite <- !app_assoc.
    + destruct Hoperand as [Habs | Hint]; [congruence |].
      assert (Hclass : isTensorTypeOrWrappedTensorType (getType operand)
                       = Returned false) by now rewrite Hint.
      rewrite Hclass. simpl. rewrite Hclass.
      rewrite adjust_lets_through; simpl; [| exact Hint].
      rewrite IH. simpl. now rewrite <- !app_assoc.
Qed.

(** For operands each of which is a base tensor or an int, and a dtype
    function whose parameters start with two ints for each tensor and one
    int for each int, the builder succeeds: it gives, in the order of the
    operands, the length of the size list and the dtype of each tensor and
    each int itself, and it inserts a size, a length and a dtype operation
    for each tensor, in this order, and nothing else. *)
Theorem builder_tensors_and_ints (b : OpBuilder) (operands : list Value)
  (dtypeFunc : FuncOp) (extra : list TorchType)
  (Hoperands : Forall (fun operand =>
                         isaBaseTensorType (getType operand) = true \/
                         getType operand = IntType) operands)
  (Hsignature : getArgumentTypes dtypeFunc
                = repeat IntType (slotsNeeded operands) ++ extra) :
  builder b operands dtypeFunc
  = Returned ({| inserted := inserted b ++ flat_map surrogateOps operands |},
              Success (flat_map surrogates operands)).
Proof.
  unfold dtypeFunctionArgsBuilder. rewrite Hsignature.
  now rewrite (loop_surrogates operands extra Hoperands b []).
Qed.

(** An operand whose tensor is wrapped in [Optional] or [List] is counted
    as a tensor, but no rank and no dtype is computed for it: against two
    parameters of its own type the builder hands the operand itself on
    twice and inserts nothing. *)
Theorem builder_wrapped_tensor (b : OpBuilder) (operand : Value)
  (dtypeFunc : FuncOp) (extra : list TorchType)
  (Hclass : isTensorTypeOrWrappedTensorType (getType operand) = Returned true)
  (Hwrapped : isaBaseTensorType (getType operand) = false)
  (Hsignature : getArgumentTypes dtypeFunc
                = getType operand :: getType operand :: extra) :
  builder b [operand] dtypeFunc = Returned (b, Success [operand; operand]).
Proof.
  unfold dtypeFunctionArgsBuilder. rewrite Hsignature. simpl.
  rewrite Hclass.
  rewrite adjust_lets_through;
    unfold rankArgAdjuster; rewrite Hwrapped, andb_false_r; simpl;
    [| reflexivity].
  rewrite adjust_lets_through;
    unfold dtypeArgAdjuster; rewrite Hwrapped, andb_false_r; simpl;
    [| reflexivity].
  reflexivity.
Qed.

End PassThroughAdjuster.

Lemma builder_ignores_extra_parameters_witness :
  getArgumentTypes Examples.h_dtype
  = getArgumentTypes Examples.g_dtype ++ [IntType] /\
  dtypeFunctionArgsBuilder SpecModel.adjustFunctionArg Examples.emptyBuilder
    [Examples.intOperand] Examples.g_dtype
  = Returned (Examples.emptyBuilder, Success [Examples.intOperand]) /\
  dtypeFunctionArgsBuilder SpecModel.adjustFunctionArg Examples.emptyBuilder
    [Examples.intOperand] Examples.h_dtype
  = Returned (Examples.emptyBuilder, Success [Examples.intOperand]).
Proof.
  split; [reflexivity | split; [reflexivity |]].
  apply (builder_ignores_extra_parameters SpecModel.adjustFunctionArg
           Examples.emptyBuilder [Examples.intOperand] Examples.g_dtype
           Examples.h_dtype [IntType]);
    reflexivity.
Defined.

Lemma builder_assertion_order_witness :
  dtypeFunctionArgsLoop SpecModel.adjustFunctionArg Examples.emptyBuilder
    [Examples.intOperand] (getArgumentTypes Examples.g_dtype) []
  = Returned (Examples.emptyBuilder, Success ([], [Examples.intOperand])) /\
  dtypeFunctionArgsBuilder SpecModel.adjustFunctionArg Examples.emptyBuilder
    ([Examples.intOperand] ++ Examples.tupleOperand :: []) Examples.g_dtype
  = AssertionFailure oneArgumentAssertion.
Proof.
  split; [reflexivity |].
  apply (proj1 (builder_assertion_order SpecModel.adjustFunctionArg
                  Examples.emptyBuilder [Examples.intOperand]
                  Examples.tupleOperand [] Examples.g_dtype
                  Examples.emptyBuilder [] [Examples.intOperand] eq_refl)).
  reflexivity.
Defined.

Lemma builder_failure_is_immediate_witness :
  dtypeFunctionArgsLoop SpecModel.adjustFunctionArg Examples.emptyBuilder
    [Examples.intOperand] (getArgumentTypes Examples.f_dtype) []
  = Returned (Examples.emptyBuilder,
              Success ([IntType; IntType], [Examples.intOperand])) /\
  SpecModel.adjustFunctionArg Examples.emptyBuilder
    Examples.optionalTensorOperand IntType rankArgAdjuster
  = (Examples.emptyBuilder, Failure) /\
  dtypeFunctionArgsBuilder SpecModel.adjustFunctionArg Examples.emptyBuilder
    ([Examples.intOperand] ++ Examples.optionalTensorOperand
                              :: [Examples.tupleOperand]) Examples.f_dtype
  = Returned (Examples.emptyBuilder, Failure).
Proof.
  split; [reflexivity | split; [reflexivity |]].
  apply (proj1 (proj2
                  (builder_failure_is_immediate SpecModel.adjustFunctionArg
                     Examples.emptyBuilder [Examples.intOperand]
                     Examples.optionalTensorOperand [Examples.tupleOperand]
                     Examples.f_dtype Examples.emptyBuilder [IntType; IntType]
                     [Examples.intOperand] eq_refl))
           IntType IntType [] Examples.emptyBuilder);
    reflexivity.
Defined.

Lemma passAsIs_never_fails :
  forall b operand desiredType (baseTransformation : BaseTransformation),
    snd (Examples.passAsIs b operand desiredType baseTransformation)
    <> Failure.
Proof.
  intros b operand desiredType baseTransformation. unfold Examples.passAsIs.
  destruct (baseTransformation b operand desiredType). discriminate.
Defined.

Lemma builder_with_total_adjuster_witness :
  (forall b', dtypeFunctionArgsBuilder Examples.passAsIs Examples.emptyBuilder
                [Examples.tensorOperand; Examples.intOperand] Examples.h_dtype
              <> Returned (b', Failure)) /\
  (Forall (fun operand =>
             isaTupleType (unwrappedType (getType operand)) = false)
     [Examples.tensorOperand; Examples.intOperand] ->
   ((exists b' args,
       dtypeFunctionArgsBuilder Examples.passAsIs Examples.emptyBuilder
         [Examples.tensorOperand; Examples.intOperand] Examples.h_dtype
       = Returned (b', Success args)) <->
    slotsNeeded [Examples.tensorOperand; Examples.intOperand]
    <= List.length (getArgumentTypes Examples.h_dtype)) /\
   (List.length (getArgumentTypes Examples.h_dtype)
    < slotsNeeded [Examples.tensorOperand; Examples.intOperand] ->
    exists message,
      dtypeFunctionArgsBuilder Examples.passAsIs Examples.emptyBuilder
        [Examples.tensorOperand; Examples.intOperand] Examples.h_dtype
      = AssertionFailure message)).
Proof.
  exact (builder_with_total_adjuster Examples.passAsIs passAsIs_never_fails
           Examples.emptyBuilder [Examples.tensorOperand; Examples.intOperand]
           Examples.h_dtype).
Defined.

Lemma builder_tensors_and_ints_witness :
  Forall (fun operand => isaBaseTensorType (getType operand) = true \/
                         getType operand = IntType)
    [Examples.intOperand; Examples.tensorOperand] /\
  getArgumentTypes Examples.f_dtype
  = repeat IntType (slotsNeeded [Examples.intOperand; Examples.tensorOperand])
    ++ [] /\
  dtypeFunctionArgsBuilder SpecModel.adjustFunctionArg Examples.emptyBuilder
    [Examples.intOperand; Examples.tensorOperand] Examples.f_dtype
  = Returned
      ({| inserted :=
            inserted Examples.emptyBuilder ++
            flat_map surrogateOps
              [Examples.intOperand; Examples.tensorOperand] |},
       Success
         (flat_map surrogates [Examples.intOperand; Examples.tensorOperand])).
Proof.
  assert (Hoperands :
            Forall (fun operand => isaBaseTensorType (getType operand) = true \/
                                   getType operand = IntType)
              [Examples.intOperand; Examples.tensorOperand])
    by (constructor; [right; reflexivity |];
        constructor; [left; reflexivity | constructor]).
  split; [exact Hoperands | split; [reflexivity |]].
  exact (builder_tensors_and_ints SpecModel.adjustFunctionArg
           model_adjust_pass_through Examples.emptyBuilder
           [Examples.intOperand; Examples.tensorOperand] Examples.f_dtype []
           Hoperands eq_refl).
Defined.

Lemma builder_wrapped_tensor_witness :
  isTensorTypeOrWrappedTensorType (getType Examples.optionalTensorOperand)
  = Returned true /\
  isaBaseTensorType (getType Examples.optionalTensorOperand) = false /\
  dtypeFunctionArgsBuilder SpecModel.adjustFunctionArg Examples.emptyBuilder
    [Examples.optionalTensorOperand]
    (Examples.dtypeFn "o_dtype" "o"
       [OptionalType ValueTensorType; OptionalType ValueTensorType])
  = Returned (Examples.emptyBuilder,
              Success [Examples.optionalTensorOperand;
                       Examples.optionalTensorOperand]).
Proof.
  split; [reflexivity | split; [reflexivity |]].
  apply (builder_wrapped_tensor SpecModel.adjustFunctionArg
           model_adjust_pass_through Examples.emptyBuilder
           Examples.optionalTensorOperand
           (Examples.dtypeFn "o_dtype" "o"
              [OptionalType ValueTensorType; OptionalType ValueTensorType])
           []);
    reflexivity.
Defined.

(** ** Further properties of the pass *)

Section WalkFurther.

Variable State : Type.
Variable callback :
  Operation -> State -> Outcome (Operation * State * WalkResult).

(** An assertion that the callback trips, on any operation that the walk
    reaches, ends the walk with this assertion. *)
Lemma walk_assertion_by (root : Operation) (st0 : State) (op : Operation)
  (st : State) :
  Invoked callback root st0 op st ->
  forall message,
    callback op st = AssertionFailure message ->
    walk callback root st0 = AssertionFailure message.
Proof.
  induction 1 as [name operands resultTypes body st0 body' st r0 Hbody Hr0
                 | name operands resultTypes before nested after st0 before'
                     st1 r0 op st Hbefore Hr0 _ IH];
    intros message Hcallback.
  - now rewrite walk_unfold, Hbody, Hr0.
  - rewrite walk_unfold,
      (walkBlock_app _ callback _ (nested :: after) _ _ _ _ Hbefore Hr0).
    simpl. now rewrite (IH _ Hcallback).
Qed.

End WalkFurther.

Section PassFurther.

Variable adjustFunctionArg : ArgAdjuster.
Variable wrapWithCalculateOpIfLibraryFunctionAvailable : WrapUtility.
Variable importLibraryFunctions :
  ModuleOp -> ModuleOp -> list string -> ModuleOp.
Variable getAbstractInterpLibrary : string.
Variable parseSourceString : string -> ModuleOp.

Local Abbreviation library := (parseSourceString getAbstractInterpLibrary).
Local Abbreviation callback :=
  (walkCallback adjustFunctionArg wrapWithCalculateOpIfLibraryFunctionAvailable
     library).
Local Abbreviation pass :=
  (runOnOperation adjustFunctionArg
     wrapWithCalculateOpIfLibraryFunctionAvailable importLibraryFunctions
     getAbstractInterpLibrary parseSourceString).

(** When the wrap of an operation that the walk reaches trips an assertion,
    the pass ends with this assertion: it neither signals failure nor calls
    [importLibraryFunctions]. *)
Theorem pass_assertion_propagates (module : ModuleOp) (op : Operation)
  (functionsNeeded : list string) (message : string)
  (Hinvoked : Invoked callback (moduleOperation module) [] op functionsNeeded)
  (Hassertion : callback op functionsNeeded = AssertionFailure message) :
  pass module = AssertionFailure message.
Proof.
  unfold runOnOperation.
  now rewrite (walk_assertion_by _ _ _ _ _ _ Hinvoked _ Hassertion).
Qed.


End PassFurther.

Lemma pass_assertion_propagates_witness :
  Invoked Examples.callback
    (moduleOperation (Examples.flatProgram [Examples.g_tensor_op])) []
    Examples.g_tensor_op [] /\
  Examples.callback Examples.g_tensor_op []
  = AssertionFailure twoArgumentsAssertion /\
  Examples.pass (Examples.flatProgram [Examples.g_tensor_op])
  = AssertionFailure twoArgumentsAssertion.
Proof.
  assert (Hinvoked :
            Invoked Examples.callback
              (moduleOperation (Examples.flatProgram [Examples.g_tensor_op]))
              [] Examples.g_tensor_op []).
  { apply (invoked_nested Examples.callback "builtin.module" [] [] []
             Examples.g_tensor_op [] [] [] [] advance); try reflexivity.
    apply (invoked_self Examples.callback "g" [Examples.tensorOperand]
             [ValueTensorType] [] [] [] [] advance); reflexivity. }
  split; [exact Hinvoked | split; [reflexivity |]].
  exact (pass_assertion_propagates SpecModel.adjustFunctionArg
           SpecModel.wrapWithCalculateOpIfLibraryFunctionAvailable
           SpecModel.importLibraryFunctions Examples.libraryText Examples.parse
           (Examples.flatProgram [Examples.g_tensor_op]) Examples.g_tensor_op
           [] twoArgumentsAssertion Hinvoked eq_refl).
Defined.


(** ** What the builder keeps when it fails *)

Lemma Extends_refl (b : OpBuilder) : Extends b b.
Proof. exists []. now rewrite app_nil_r. Qed.

Lemma Extends_trans (b1 b2 b3 : OpBuilder) :
  Extends b1 b2 -> Extends b2 b3 -> Extends b1 b3.
Proof.
  intros [ops Hops] [ops' Hops']. exists (ops ++ ops').
  now rewrite Hops', Hops, app_assoc.
Qed.

Lemma create_extends (name : string) (resultType : TorchType)
  (operands : list Value) (b : OpBuilder) :
  Extends b (fst (create name resultType operands b)).
Proof. now eexists. Qed.

Lemma rankArgAdjuster_extends (b : OpBuilder) (operand : Value)
  (desiredType : TorchType) :
  Extends b (fst (rankArgAdjuster b operand desiredType)).
Proof.
  unfold rankArgAdjuster.
  destruct (isaIntType desiredType && isaBaseTensorType (getType operand));
    [| apply Extends_refl].
  eapply Extends_trans; apply create_extends.
Qed.

Lemma dtypeArgAdjuster_extends (b : OpBuilder) (operand : Value)
  (desiredType : TorchType) :
  Extends b (fst (dtypeArgAdjuster b operand desiredType)).
Proof.
  unfold dtypeArgAdjuster.
  destruct (isaIntType desiredType && isaBaseTensorType (getType operand));
    [apply create_extends | apply Extends_refl].
Qed.

Section FailureKeepsInsertions.

Variable adjustFunctionArg : ArgAdjuster.

Local Abbreviation builder := (dtypeFunctionArgsBuilder adjustFunctionArg).

(** The adjuster applies the base transformation first and lets a value of
    the desired type through. *)
Hypothesis adjust_lets_through :
  forall b operand desiredType (baseTransformation : BaseTransformation),
    getType (snd (baseTransformation b operand desiredType)) = desiredType ->
    adjustFunctionArg b operand desiredType baseTransformation
    = (fst (baseTransformation b operand desiredType),
       Success (snd (baseTransformation b operand desiredType))).

(** The adjuster only inserts, when the base transformation only
    inserts. *)
Hypothesis adjust_extends :
  forall b operand desiredType (baseTransformation : BaseTransformation),
    (forall b0 operand0 type0,
        Extends b0 (fst (baseTransformation b0 operand0 type0))) ->
    Extends b (fst (adjustFunctionArg b operand desiredType
                      baseTransformation)).

(** Nothing is rolled back on failure. When the operands before are base
    tensors and ints against int parameters, and the adjuster then fails
    for the next operand (for its one value, or for its rank), the builder
    returns the failure value with the builder that the failing call left,
    and this builder holds, after what was there before the call of the
    argument builder, every size, length and dtype operation that was
    inserted for the operands before, in their order. *)
Theorem builder_failure_keeps_insertions (b : OpBuilder)
  (prefix : list Value) (operand : Value) (rest : list Value)
  (dtypeFunc : FuncOp) (left : list TorchType)
  (Hprefix : Forall (fun operand0 =>
                       isaBaseTensorType (getType operand0) = true \/
                       getType operand0 = IntType) prefix)
  (Hsignature : getArgumentTypes dtypeFunc
                = repeat IntType (slotsNeeded prefix) ++ left) :
  (forall slot left' b1,
     left = slot :: left' ->
     isTensorTypeOrWrappedTensorType (getType operand) = Returned false ->
     adjustFunctionArg
       {| inserted := inserted b ++ flat_map surrogateOps prefix |}
       operand slot noTransformation = (b1, Failure) ->
     builder b (prefix ++ operand :: rest) dtypeFunc = Returned (b1, Failure) /\
     exists ops,
       inserted b1 = (inserted b ++ flat_map surrogateOps prefix) ++ ops) /\
  (forall slot slot' left' b1,
     left = slot :: slot' :: left' ->
     isTensorTypeOrWrappedTensorType (getType operand) = Returned true ->
     adjustFunctionArg
       {| inserted := inserted b ++ flat_map surrogateOps prefix |}
       operand slot rankArgAdjuster = (b1, Failure) ->
     builder b (prefix ++ operand :: rest) dtypeFunc = Returned (b1, Failure) /\
     exists ops,
       inserted b1 = (inserted b ++ flat_map surrogateOps prefix) ++ ops).
Proof.
  pose proof (loop_surrogates adjustFunctionArg adjust_lets_through prefix
                left Hprefix b []) as Hloop.
  rewrite <- Hsignature in Hloop.
  unfold dtypeFunctionArgsBuilder. erewrite loop_app by exact Hloop.
  split.
  - intros slot left' b1 -> Hclass Hfail. simpl. rewrite Hclass, Hfail.
    split; [reflexivity |].
    pose proof (adjust_extends
                  {| inserted := inserted b ++ flat_map surrogateOps prefix |}
                  operand slot noTransformation
                  (fun b0 _ _ => Extends_refl b0)) as Hextends.
    rewrite Hfail in Hextends. exact Hextends.
  - intros slot slot' left' b1 -> Hclass Hfail. simpl. rewrite Hclass, Hfail.
    split; [reflexivity |].
    pose proof (adjust_extends
                  {| inserted := inserted b ++ flat_map surrogateOps prefix |}
                  operand slot rankArgAdjuster rankArgAdjuster_extends)
      as Hextends.
    rewrite Hfail in Hextends. exact Hextends.
Qed.

End FailureKeepsInsertions.

Lemma model_adjust_extends :
  forall b operand desiredType (baseTransformation : BaseTransformation),
    (forall b0 operand0 type0,
        Extends b0 (fst (baseTransformation b0 operand0 type0))) ->
    Extends b (fst (SpecModel.adjustFunctionArg b operand desiredType
                      baseTransformation)).
Proof.
  intros b operand desiredType baseTransformation Hbase.
  unfold SpecModel.adjustFunctionArg.
  pose proof (Hbase b operand desiredType) as Hb.
  destruct (baseTransformation b operand desiredType) as [b1 operand1].
  simpl in Hb.
  destruct (TorchType_eqb (getType operand1) desiredType); [exact Hb |].
  destruct (isaAnyType desiredType
            || TorchType_eqb (OptionalType (getType operand1)) desiredType);
    [| exact Hb].
  eapply Extends_trans; [exact Hb | apply create_extends].
Defined.

Lemma builder_failure_keeps_insertions_witness :
  Forall (fun operand0 => isaBaseTensorType (getType operand0) = true \/
                          getType operand0 = IntType)
    [Examples.tensorOperand] /\
  SpecModel.adjustFunctionArg
    {| inserted := [Examples.k_op] ++ surrogateOps Examples.tensorOperand |}
    Examples.optionalTensorOperand IntType rankArgAdjuster
  = ({| inserted := [Examples.k_op] ++ surrogateOps Examples.tensorOperand |},
     Failure) /\
  dtypeFunctionArgsBuilder SpecModel.adjustFunctionArg
    {| inserted := [Examples.k_op] |}
    ([Examples.tensorOperand] ++ Examples.optionalTensorOperand :: [])
    (Examples.dtypeFn "q_dtype" "q" [IntType; IntType; IntType; IntType])
  = Returned
      ({| inserted :=
            [Examples.k_op] ++ surrogateOps Examples.tensorOperand |},
       Failure) /\
  exists ops,
    [Examples.k_op] ++ surrogateOps Examples.tensorOperand
    = ([Examples.k_op] ++ flat_map surrogateOps [Examples.tensorOperand])
      ++ ops.
Proof.
  assert (Hprefix :
            Forall (fun operand0 =>
                      isaBaseTensorType (getType operand0) = true \/
                      getType operand0 = IntType)
              [Examples.tensorOperand])
    by (constructor; [left; reflexivity | constructor]).
  split; [exact Hprefix | split; [reflexivity |]].
  apply (proj2
           (builder_failure_keeps_insertions SpecModel.adjustFunctionArg
              model_adjust_pass_through model_adjust_extends
              {| inserted := [Examples.k_op] |} [Examples.tensorOperand]
              Examples.optionalTensorOperand []
              (Examples.dtypeFn "q_dtype" "q"
                 [IntType; IntType; IntType; IntType])
              [IntType; IntType] Hprefix eq_refl)
           IntType IntType []
           {| inserted :=
                [Examples.k_op] ++ surrogateOps Examples.tensorOperand |});
    reflexivity.
Defined.
